(** * update_manifest: a manifest of files with their Git blob SHA-1 and size

    Shallow embedding of [scripts/update_manifest.py] and the properties of
    its content hasher, directory scanner, multi-source merge and atomic
    serializer.

    Conventions of the embedding:
    - a Python [str] is a [string], read as its UTF-8 bytes, a byte that is
      not part of valid UTF-8 standing for the lone surrogate Python decodes
      it to (on UTF-8 text, code point order and suffix tests coincide with
      the byte-wise ones; [str.strip] removes the white space of Unicode;
      [str.lower] lowers the ASCII letters, which is all that bears on the
      default extension);
    - a Python [bytes] is a [list byte];
    - a Python [dict] is an insertion-ordered association list;
    - the file system, the clock and the I/O faults of the host are explicit
      inputs; [stderr] and [stdout] are lists of lines. *)

From Stdlib Require Import String Ascii List ZArith NArith Lia Bool.
From Stdlib Require Import Strings.Byte.
From Stdlib Require Import DecimalString Permutation Sorted.
Import ListNotations.

Local Open Scope string_scope.
Local Open Scope list_scope.

(** ** hashlib.sha1 (FIPS 180-4), on 32-bit words held in [Z] *)

Module SHA1.
Local Open Scope Z_scope.

Definition wrap32 (x : Z) : Z := x mod 2 ^ 32.

Definition rotl (n x : Z) : Z :=
  wrap32 (Z.lor (Z.shiftl x n) (Z.shiftr x (32 - n))).

Definition not32 (x : Z) : Z := Z.lxor x 4294967295.

Definition add32 (x y : Z) : Z := wrap32 (x + y).

Record state := State { h0 : Z; h1 : Z; h2 : Z; h3 : Z; h4 : Z }.

Definition init : state :=
  State 1732584193 4023233417 2562383102 271733878 3285377520.

(** Big-endian bytes of the 64-bit message length in bits. *)
Definition length_bytes (bits : Z) : list Z :=
  map (fun i => Z.land (Z.shiftr bits (8 * i)) 255) [7; 6; 5; 4; 3; 2; 1; 0].

(** Number of zero bytes of padding after the 0x80 marker. *)
Definition zero_pad (len : nat) : nat :=
  Z.to_nat ((55 - Z.of_nat len) mod 64).

Definition pad (msg : list Z) : list Z :=
  msg ++ [128] ++ repeat 0 (zero_pad (length msg))
      ++ length_bytes (8 * Z.of_nat (length msg)).

Fixpoint words (n : nat) (bs : list Z) : list Z :=
  match n, bs with
  | S n', b0 :: b1 :: b2 :: b3 :: rest =>
      (Z.shiftl b0 24 + Z.shiftl b1 16 + Z.shiftl b2 8 + b3) :: words n' rest
  | _, _ => []
  end.

(** The message schedule, newest word first. *)
Fixpoint schedule (n : nat) (rev_w : list Z) : list Z :=
  match n with
  | O => rev_w
  | S n' =>
      let w := rotl 1 (Z.lxor (Z.lxor (nth 2 rev_w 0) (nth 7 rev_w 0))
                              (Z.lxor (nth 13 rev_w 0) (nth 15 rev_w 0))) in
      schedule n' (w :: rev_w)
  end.

Definition f (t : nat) (b c d : Z) : Z :=
  if (t <? 20)%nat then Z.lor (Z.land b c) (Z.land (not32 b) d)
  else if (t <? 40)%nat then Z.lxor (Z.lxor b c) d
  else if (t <? 60)%nat then
    Z.lor (Z.lor (Z.land b c) (Z.land b d)) (Z.land c d)
  else Z.lxor (Z.lxor b c) d.

Definition k (t : nat) : Z :=
  if (t <? 20)%nat then 1518500249
  else if (t <? 40)%nat then 1859775393
  else if (t <? 60)%nat then 2400959708
  else 3395469782.

Definition round (s : state) (tw : nat * Z) : state :=
  let (t, w) := tw in
  let temp :=
    add32 (add32 (add32 (add32 (rotl 5 (h0 s)) (f t (h1 s) (h2 s) (h3 s)))
                        (h4 s)) (k t)) w in
  State temp (h0 s) (rotl 30 (h1 s)) (h2 s) (h3 s).

Definition compress (s : state) (block : list Z) : state :=
  let w := rev (schedule 64 (rev (words 16 block))) in
  let r := fold_left round (combine (seq 0 80) w) s in
  State (add32 (h0 s) (h0 r)) (add32 (h1 s) (h1 r)) (add32 (h2 s) (h2 r))
        (add32 (h3 s) (h3 r)) (add32 (h4 s) (h4 r)).

Fixpoint blocks (n : nat) (bs : list Z) : list (list Z) :=
  match n with
  | O => []
  | S n' => firstn 64 bs :: blocks n' (skipn 64 bs)
  end.

Definition digest (msg : list Z) : state :=
  let p := pad msg in
  fold_left compress (blocks (length p / 64) p) init.

Definition hex_alphabet : list ascii :=
  list_ascii_of_string "0123456789abcdef".

Definition hex_digit (n : Z) : ascii :=
  nth (Z.to_nat (Z.land n 15)) hex_alphabet "0"%char.

Definition hex_word (w : Z) (rest : string) : string :=
  String (hex_digit (Z.shiftr w 28)) (String (hex_digit (Z.shiftr w 24))
 (String (hex_digit (Z.shiftr w 20)) (String (hex_digit (Z.shiftr w 16))
 (String (hex_digit (Z.shiftr w 12)) (String (hex_digit (Z.shiftr w 8))
 (String (hex_digit (Z.shiftr w 4)) (String (hex_digit w) rest))))))).

Definition hex (s : state) : string :=
  hex_word (h0 s) (hex_word (h1 s) (hex_word (h2 s)
    (hex_word (h3 s) (hex_word (h4 s) EmptyString)))).

Definition byte_value (b : byte) : Z := Z.of_N (Byte.to_N b).

(** A [hashlib] hash object, as the C implementation keeps it: the chaining
    value, the bytes of the block still incomplete, and the count of bytes
    fed so far. [update] compresses every block it completes. *)
Record hasher := Hasher { chain : state; pending : list Z; total : nat }.

Fixpoint absorb (n : nat) (s : state) (bs : list Z) : state * list Z :=
  match n with
  | O => (s, bs)
  | S n' => absorb n' (compress s (firstn 64 bs)) (skipn 64 bs)
  end.

Definition new : hasher := Hasher init [] 0.

Definition update (h : hasher) (data : list byte) : hasher :=
  let buf := pending h ++ map byte_value data in
  let (s, rest) := absorb (length buf / 64) (chain h) buf in
  Hasher s rest (total h + length data).

Definition finish (h : hasher) : state :=
  let tail := pending h ++ [128] ++ repeat 0 (zero_pad (total h))
                ++ length_bytes (8 * Z.of_nat (total h)) in
  fst (absorb (length tail / 64) (chain h) tail).

Definition hexdigest (h : hasher) : string := hex (finish h).

(** The one-shot digest of a byte sequence, as 40 hex characters. *)
Definition sha1_hex (data : list byte) : string :=
  hex (digest (map byte_value data)).

(** The hash object [h] has been fed exactly the bytes [m]. *)
Definition fed (h : hasher) (m : list Z) : Prop :=
  chain h = fold_left compress (blocks (length m / 64) m) init
  /\ pending h = skipn (64 * (length m / 64)) m
  /\ total h = length m.
End SHA1.

(** ** Python built-ins used by the script *)

Definition bytes_of (s : string) : list byte := list_byte_of_string s.

(** [str(n)] for a non-negative integer. *)
Definition str_of_nat (n : nat) : string :=
  NilEmpty.string_of_uint (Nat.to_uint n).

Definition is_upper (c : ascii) : bool :=
  let n := nat_of_ascii c in (65 <=? n)%nat && (n <=? 90)%nat.

Definition lower_char (c : ascii) : ascii :=
  if is_upper c then ascii_of_nat (nat_of_ascii c + 32) else c.

(** [s.lower()] *)
Fixpoint lower (s : string) : string :=
  match s with
  | EmptyString => EmptyString
  | String c r => String (lower_char c) (lower r)
  end.

(** Whether [s] has an uppercase letter, that is, [s != s.lower()]. *)
Fixpoint has_upper (s : string) : bool :=
  match s with
  | EmptyString => false
  | String c r => is_upper c || has_upper r
  end.

(** [s.startswith(p)] *)
Definition startswith (s p : string) : bool := String.prefix p s.

(** [s.endswith(e)]: some suffix of [s] is [e]. *)
Fixpoint endswith (s e : string) : bool :=
  (s =? e)
  || match s with
     | EmptyString => false
     | String _ r => endswith r e
     end.

(** [s.replace(a, b)] for single characters [a] and [b]. *)
Fixpoint replace_char (a b : ascii) (s : string) : string :=
  match s with
  | EmptyString => EmptyString
  | String c r => String (if Ascii.eqb c a then b else c) (replace_char a b r)
  end.

(** White space as [str.isspace] has it, on the UTF-8 bytes of a code point:
    U+0009 to U+000D, U+001C to U+0020; U+0085 and U+00A0; U+1680, U+2000 to
    U+200A, U+2028, U+2029, U+202F, U+205F and U+3000. *)
Definition is_space (c : ascii) : bool :=
  let n := nat_of_ascii c in
  (n =? 32)%nat || ((9 <=? n)%nat && (n <=? 13)%nat)
  || ((28 <=? n)%nat && (n <=? 31)%nat).

Definition is_space2 (a b : ascii) : bool :=
  (nat_of_ascii a =? 194)%nat
  && ((nat_of_ascii b =? 133)%nat || (nat_of_ascii b =? 160)%nat).

Definition is_space3 (a b c : ascii) : bool :=
  let x := nat_of_ascii a in
  let y := nat_of_ascii b in
  let z := nat_of_ascii c in
  ((x =? 225)%nat && (y =? 154)%nat && (z =? 128)%nat)
  || ((x =? 226)%nat && (y =? 128)%nat
      && (((128 <=? z)%nat && (z <=? 138)%nat)
          || (z =? 168)%nat || (z =? 169)%nat || (z =? 175)%nat))
  || ((x =? 226)%nat && (y =? 129)%nat && (z =? 159)%nat)
  || ((x =? 227)%nat && (y =? 128)%nat && (z =? 128)%nat).

(** Removal of the white space at the front of [s]; with [backwards], [s] is
    a reversed string and the bytes of a code point come last byte first. *)
Fixpoint strip_front (backwards : bool) (s : string) : string :=
  match s with
  | EmptyString => s
  | String c r =>
      if is_space c then strip_front backwards r
      else
        match r with
        | EmptyString => s
        | String c2 r2 =>
            if (if backwards then is_space2 c2 c else is_space2 c c2)
            then strip_front backwards r2
            else
              match r2 with
              | EmptyString => s
              | String c3 r3 =>
                  if (if backwards then is_space3 c3 c2 c
                      else is_space3 c c2 c3)
                  then strip_front backwards r3
                  else s
              end
        end
  end.

Fixpoint rev_append (s acc : string) : string :=
  match s with
  | EmptyString => acc
  | String c r => rev_append r (String c acc)
  end.

Definition reversed (s : string) : string := rev_append s EmptyString.

(** [s.lstrip()] *)
Definition lstrip (s : string) : string := strip_front false s.

(** [s.rstrip()] *)
Definition rstrip (s : string) : string :=
  reversed (strip_front true (reversed s)).

(** [s.strip()] *)
Definition strip (s : string) : string := rstrip (lstrip s).

(** [c in s] for a character [c]. *)
Fixpoint contains (c : ascii) (s : string) : bool :=
  match s with
  | EmptyString => false
  | String c' r => Ascii.eqb c' c || contains c r
  end.

(** [s.split(c, 1)] when [c in s]: the text before and after the first [c]. *)
Fixpoint split_once (c : ascii) (s : string) : string * string :=
  match s with
  | EmptyString => (EmptyString, EmptyString)
  | String c' r =>
      if Ascii.eqb c' c then (EmptyString, r)
      else let (a, b) := split_once c r in (String c' a, b)
  end.

(** [s.split(c)] *)
Fixpoint split (c : ascii) (s : string) : list string :=
  match s with
  | EmptyString => [EmptyString]
  | String c' r =>
      if Ascii.eqb c' c then EmptyString :: split c r
      else match split c r with
           | p :: ps => String c' p :: ps
           | [] => [String c' EmptyString]
           end
  end.

(** The order of strings by code points. *)
Definition str_le (a b : string) : Prop := (a <=? b) = true.
Definition str_lt (a b : string) : Prop := (a <? b) = true.

(** Insertion of a string into a list sorted by code points; [sorted] is
    [sorted(l)] and [l.sort()]. *)
Fixpoint insert_sorted (x : string) (l : list string) : list string :=
  match l with
  | [] => [x]
  | y :: r => if (x <=? y) then x :: l else y :: insert_sorted x r
  end.

Definition sorted (l : list string) : list string :=
  fold_right insert_sorted [] l.

(** ** os.path (posixpath) *)

Module Path.
Local Open Scope string_scope.

Definition sep : ascii := "/"%char.

(** [p[:p.rfind('/') + 1]] *)
Fixpoint head (p : string) : string :=
  match p with
  | EmptyString => EmptyString
  | String c r =>
      if contains sep r then String c (head r)
      else if Ascii.eqb c sep then String c EmptyString
      else EmptyString
  end.

(** [os.path.basename(p)]: [p[p.rfind('/') + 1:]] *)
Fixpoint basename (p : string) : string :=
  match p with
  | EmptyString => EmptyString
  | String c r =>
      if contains sep r then basename r
      else if Ascii.eqb c sep then r
      else p
  end.

Fixpoint all_sep (s : string) : bool :=
  match s with
  | EmptyString => true
  | String c r => Ascii.eqb c sep && all_sep r
  end.

(** [s.rstrip('/')] *)
Fixpoint rstrip_sep (s : string) : string :=
  match s with
  | EmptyString => EmptyString
  | String c r =>
      match rstrip_sep r with
      | EmptyString =>
          if Ascii.eqb c sep then EmptyString else String c EmptyString
      | r' => String c r'
      end
  end.

(** [os.path.dirname(p)] *)
Definition dirname (p : string) : string :=
  let h := head p in
  if negb (h =? "") && negb (all_sep h) then rstrip_sep h else h.

(** [os.path.join(a, b)] *)
Definition join (a b : string) : string :=
  if startswith b "/" then b
  else if (a =? "") || endswith a "/" then a ++ b
  else a ++ "/" ++ b.

(** The loop of [normpath] over the components of the path. *)
Fixpoint collapse (rooted : bool) (comps : list string)
                  (rev_new : list string) : list string :=
  match comps with
  | [] => rev rev_new
  | comp :: rest =>
      if (comp =? "") || (comp =? ".") then collapse rooted rest rev_new
      else if negb (comp =? "..")
              || (negb rooted && match rev_new with [] => true | _ => false end)
              || match rev_new with last :: _ => last =? ".." | [] => false end
      then collapse rooted rest (comp :: rev_new)
      else collapse rooted rest (tl rev_new)
  end.

(** [os.path.normpath(p)] *)
Definition normpath (p : string) : string :=
  if p =? "" then "."
  else
    let initial_slashes :=
      if startswith p "/" then
        if startswith p "//" && negb (startswith p "///") then 2 else 1
      else 0 in
    let comps := collapse (negb (initial_slashes =? 0)%nat) (split sep p) [] in
    let q := String.concat "/" comps in
    let q := match initial_slashes with
             | 0 => q
             | 1 => "/" ++ q
             | _ => "//" ++ q
             end in
    if q =? "" then "." else q.

Definition isabs (p : string) : bool := startswith p "/".

(** [os.path.abspath(p)] in the working directory [cwd]. *)
Definition abspath (cwd p : string) : string :=
  normpath (if isabs p then p else join cwd p).

(** [s.lstrip('/')] *)
Fixpoint lstrip_sep (s : string) : string :=
  match s with
  | EmptyString => EmptyString
  | String c r => if Ascii.eqb c sep then lstrip_sep r else s
  end.

(** The components of [abspath(p)]. *)
Definition components (cwd p : string) : list string :=
  let tail := lstrip_sep (abspath cwd p) in
  if tail =? "" then [] else split sep tail.

(** [len(commonprefix([a, b]))] *)
Fixpoint common_prefix (a b : list string) : nat :=
  match a, b with
  | x :: a', y :: b' => if x =? y then S (common_prefix a' b') else 0
  | _, _ => 0
  end.

(** [os.path.relpath(path, start)] in the working directory [cwd]. *)
Definition relpath (cwd path start : string) : string :=
  let start_list := components cwd start in
  let path_list := components cwd path in
  let i := common_prefix start_list path_list in
  let rel_list :=
    (repeat ".." (length start_list - i) ++ skipn i path_list)%list in
  match rel_list with
  | [] => "."
  | first :: rest => fold_left join rest first
  end.
End Path.

(** ** The file system and the host *)

(** A directory tree as [os.scandir] shows it: names are unique within a
    directory; the order of the list carries no meaning. *)
#[warnings="-register-all"]
Inductive entry : Type :=
| File
| Dir (children : list (string * entry)).

Definition is_dir (e : entry) : bool :=
  match e with Dir _ => true | File => false end.

(** [tree p] is what the path [p] leads to, as the scan of the sources and
    [os.path.isdir] see it; [content p] is what [open(p, 'rb').read()] gives:
    the bytes of the file, or the text of the exception raised. *)
Record filesystem := FileSystem {
  tree : string -> option entry;
  content : string -> string + list byte
}.

(** What the program cannot control: the working directory, the clock, the
    order in which a directory is enumerated, which system calls fail, how
    much of a text reaches a file before its encoding is refused, and
    whether [sys.stdout] takes a line ([print] raises when the stream refuses
    to encode it or cannot be written to). *)
Record host := Host {
  getcwd : string;
  now_utc_isoformat : string;
  scandir_order : string -> list (string * bool) -> list (string * bool);
  mkdir_fails : string -> bool;
  open_fails : string -> bool;
  write_stops : string -> option nat;
  replace_fails : string -> string -> bool;
  flushed_before_encode_error : string -> nat;
  print_fails : string -> bool
}.

(** [os.path.isdir(p)] *)
Definition isdir (fs : filesystem) (p : string) : bool :=
  match tree fs p with
  | Some (Dir _) => true
  | _ => false
  end.


(** ** git_blob_sha1 *)

Definition git_blob_sha1 (data : list byte) : string :=
  let header :=
    (bytes_of "blob " ++ bytes_of (str_of_nat (length data)) ++ [x00])%list in
  let h := SHA1.new in
  let h := SHA1.update h header in
  let h := SHA1.update h data in
  SHA1.hexdigest h.

(** ** gather_files *)

Definition lookup {V : Type} (k : string) (l : list (string * V)) : option V :=
  option_map snd (find (fun kv => fst kv =? k) l).

(** [os.walk(top)] with the body's [dirs.sort()] and [filenames.sort()]: the
    triples [(root, dirs, filenames)] in the order the loop sees them. A
    directory is entered by scanning the path [os.path.join(root, d)]
    again. *)
Fixpoint walk (h : host) (e : entry) (root : string)
  : list (string * list string * list string) :=
  match e with
  | File => []
  | Dir children =>
      let listing :=
        scandir_order h root (map (fun nc => (fst nc, is_dir (snd nc))) children) in
      let dirs := sorted (map fst (filter snd listing)) in
      let filenames :=
        sorted (map fst (filter (fun nd => negb (snd nd)) listing)) in
      let scan := map (fun nc => (fst nc, walk h (snd nc))) children in
      (root, dirs, filenames)
        :: flat_map (fun d =>
                       match lookup d scan with
                       | Some w => w (Path.join root d)
                       | None => []
                       end) dirs
  end.

Definition backslash : ascii := ascii_of_nat 92.

(** The test of the loop body that skips a file name: the set of extensions
    is not empty and the lowered name ends with none of them. *)
Definition skipped (include_exts : list string) (fn : string) : bool :=
  negb (match include_exts with [] => true | _ => false end)
  && negb (existsb (fun e => endswith (lower fn) e) include_exts).

Definition default_exts : list string := [".json"].

Definition gather_files (h : host) (fs : filesystem) (source_dir : string)
                        (include_exts : option (list string))
  : list (string * string) :=
  let include_exts :=
    match include_exts with None => default_exts | Some exts => exts end in
  match tree fs source_dir with
  | None => []
  | Some e =>
      flat_map
        (fun step =>
           match step with
           | (root, _, filenames) =>
               flat_map
                 (fun fn =>
                    if skipped include_exts fn then []
                    else
                      let full := Path.join root fn in
                      let rel := Path.relpath (getcwd h) full source_dir in
                      [(full, replace_char backslash "/" rel)])
                 filenames
           end)
        (walk h e source_dir)
  end.

(** ** Dictionaries: insertion-ordered, one binding per key *)

Definition dict (V : Type) : Type := list (string * V).

Definition dict_mem {V : Type} (k : string) (d : dict V) : bool :=
  existsb (fun kv => fst kv =? k) d.

(** [d[k] = v]: an existing key keeps its place. *)
Fixpoint dict_set {V : Type} (k : string) (v : V) (d : dict V) : dict V :=
  match d with
  | [] => [(k, v)]
  | (k', v') :: r =>
      if k' =? k then (k', v) :: r else (k', v') :: dict_set k v r
  end.

Definition keys {V : Type} (d : dict V) : list string := map fst d.

(** ** build_manifest *)

Record file_entry := FileEntry { sha : string; size : nat }.

Definition warn_read_failed (full e : string) : string :=
  ("Warning: failed to read " ++ full ++ ": " ++ e)%string.

Definition manifest_key (source_key rel : string) : string :=
  if source_key =? "" then rel else (source_key ++ "/" ++ rel)%string.

(** One turn of the loop over the gathered files, on the manifest and the
    lines written to [stderr] so far. *)
Definition read_one (fs : filesystem) (source_key : string)
                    (acc : dict file_entry * list string)
                    (file : string * string)
  : dict file_entry * list string :=
  let (full, rel) := file in
  match content fs full with
  | inl e => (fst acc, snd acc ++ [warn_read_failed full e])
  | inr data =>
      let sha := git_blob_sha1 data in
      let size := length data in
      let key := manifest_key source_key rel in
      (dict_set key (FileEntry sha size) (fst acc), snd acc)
  end.

(** The files of a scan that [open] and [read] succeed on. *)
Definition readable (fs : filesystem) (file : string * string) : bool :=
  match content fs (fst file) with inr _ => true | inl _ => false end.

Definition build_manifest (h : host) (fs : filesystem)
                          (source_dir source_key : string)
  : dict file_entry * list string :=
  let files := gather_files h fs source_dir None in
  fold_left (read_one fs source_key) files ([], []).

(** ** json.dump(obj, f, indent=2, ensure_ascii=False) *)

#[warnings="-register-all"]
Inductive json : Type :=
| JStr (s : string)
| JInt (n : nat)
| JObj (members : list (string * json)).

Module Json.
Local Open Scope string_scope.

Definition quote : ascii := ascii_of_nat 34.

Definition hex4 (n : nat) : string :=
  let z := Z.of_nat n in
  String (SHA1.hex_digit (Z.shiftr z 12)) (String (SHA1.hex_digit (Z.shiftr z 8))
 (String (SHA1.hex_digit (Z.shiftr z 4)) (String (SHA1.hex_digit z) ""))).

(** The replacement of one character inside a JSON string. *)
Definition escape_char (c : ascii) : string :=
  let n := nat_of_ascii c in
  if (n =? 34)%nat then String backslash (String quote "")
  else if (n =? 92)%nat then String backslash (String backslash "")
  else if (n =? 8)%nat then String backslash "b"
  else if (n =? 12)%nat then String backslash "f"
  else if (n =? 10)%nat then String backslash "n"
  else if (n =? 13)%nat then String backslash "r"
  else if (n =? 9)%nat then String backslash "t"
  else if (n <? 32)%nat then String backslash ("u" ++ hex4 n)
  else String c "".

Fixpoint escape (s : string) : string :=
  match s with
  | EmptyString => EmptyString
  | String c r => escape_char c ++ escape r
  end.

Definition encode_string (s : string) : string :=
  String quote (escape s ++ String quote "").

Definition newline : string := String (ascii_of_nat 10) "".

Fixpoint spaces (n : nat) : string :=
  match n with
  | O => ""
  | S n' => String " " (spaces n')
  end.

Definition newline_indent (level : nat) : string :=
  newline ++ spaces (2 * level).

(** The encoder at nesting depth [level]. *)
Fixpoint encode (level : nat) (j : json) : string :=
  match j with
  | JStr s => encode_string s
  | JInt n => str_of_nat n
  | JObj [] => "{}"
  | JObj members =>
      "{" ++ newline_indent (S level)
          ++ String.concat ("," ++ newline_indent (S level))
               (map (fun kv => encode_string (fst kv) ++ ": "
                               ++ encode (S level) (snd kv)) members)
          ++ newline_indent level ++ "}"
  end.

Definition dumps (j : json) : string := encode 0 j.
End Json.

(** ** write_output *)

(** The exceptions of a run, by the call that raises: [os.makedirs], [open],
    a write to the open file (an [OSError], or the [UnicodeEncodeError] of a
    text that is not UTF-8), [os.replace], and the final [print]. *)
Inductive exn : Type :=
| MakedirsError (d : string)
| OpenError (p : string)
| WriteError (p : string)
| ReplaceError (src dst : string)
| PrintError (line : string).

Definition set_tree (fs : filesystem) (p : string) (e : option entry)
  : filesystem :=
  FileSystem (fun q => if q =? p then e else tree fs q) (content fs).

Definition set_content (fs : filesystem) (p : string)
                       (c : string + list byte) : filesystem :=
  FileSystem (tree fs) (fun q => if q =? p then c else content fs q).

Definition no_such_file : string := "No such file or directory".

(** [os.makedirs(d, exist_ok=True)]: nothing to do when [d] is a directory,
    an error when it is a file; otherwise the host decides whether the
    directory can be made. Of the directories made, [d] is the one kept
    track of. *)
Definition makedirs (h : host) (fs : filesystem) (d : string)
  : exn + filesystem :=
  match tree fs d with
  | Some (Dir _) => inr fs
  | Some File => inl (MakedirsError d)
  | None =>
      if mkdir_fails h d then inl (MakedirsError d)
      else inr (set_tree fs d (Some (Dir [])))
  end.

Definition continuation (c : ascii) : bool :=
  let n := nat_of_ascii c in (128 <=? n)%nat && (n <=? 191)%nat.

Definition between (lo hi : nat) (c : ascii) : bool :=
  let n := nat_of_ascii c in (lo <=? n)%nat && (n <=? hi)%nat.

(** Whether the bytes are UTF-8 (RFC 3629), that is, whether the [str] has no
    lone surrogate and [str.encode('utf-8')] accepts it. *)
Fixpoint valid_utf8 (s : string) : bool :=
  match s with
  | EmptyString => true
  | String c r =>
      if between 0 127 c then valid_utf8 r
      else
        match r with
        | EmptyString => false
        | String c2 r2 =>
            if between 194 223 c && continuation c2 then valid_utf8 r2
            else
              match r2 with
              | EmptyString => false
              | String c3 r3 =>
                  if ((between 224 224 c && between 160 191 c2)
                      || (between 225 236 c && continuation c2)
                      || (between 237 237 c && between 128 159 c2)
                      || (between 238 239 c && continuation c2))
                     && continuation c3
                  then valid_utf8 r3
                  else
                    match r3 with
                    | EmptyString => false
                    | String c4 r4 =>
                        if ((between 240 240 c && between 144 191 c2)
                            || (between 241 243 c && continuation c2)
                            || (between 244 244 c && between 128 143 c2))
                           && continuation c3 && continuation c4
                        then valid_utf8 r4
                        else false
                    end
              end
        end
  end.

(** [with open(p, 'w', encoding='utf-8') as f: json.dump(...); f.write(...)],
    on the whole [text]: the file is created or truncated, then filled; a
    write that fails leaves the bytes written before the failure. The write
    fails when the host cuts it short, and when the text cannot be encoded
    (a key with a lone surrogate); how many bytes were flushed by then
    depends on how the encoder hands the text over. *)
Definition write_text (h : host) (fs : filesystem) (p text : string)
  : option exn * filesystem :=
  if open_fails h p then (Some (OpenError p), fs)
  else
    match write_stops h p with
    | Some n => (Some (WriteError p), set_content fs p (inr (firstn n (bytes_of text))))
    | None =>
        if valid_utf8 text then (None, set_content fs p (inr (bytes_of text)))
        else (Some (WriteError p),
              set_content fs p
                (inr (firstn (flushed_before_encode_error h p) (bytes_of text))))
    end.

(** [os.replace(src, dst)]: all or nothing. *)
Definition replace (h : host) (fs : filesystem) (src dst : string)
  : exn + filesystem :=
  if replace_fails h src dst then inl (ReplaceError src dst)
  else inr (set_content (set_content fs dst (content fs src))
                        src (inl no_such_file)).

Definition entry_json (v : file_entry) : json :=
  JObj [("sha", JStr (sha v)); ("size", JInt (size v))].

(** One turn of the loop that fills [obj['files']]; [files_map[k]] is bound
    for every key the loop visits. *)
Definition fill (files_map : dict file_entry) (files : dict json) (k : string)
  : dict json :=
  match lookup k files_map with
  | Some v => dict_set k (entry_json v) files
  | None => files
  end.

(** The loop over [sorted(files_map.keys())]. *)
Definition sorted_files (files_map : dict file_entry) : dict json :=
  fold_left (fill files_map) (sorted (keys files_map)) [].

Definition manifest_obj (generated : string) (files_map : dict file_entry)
  : json :=
  JObj [("generated", JStr generated); ("files", JObj (sorted_files files_map))].

Definition document (generated : string) (files_map : dict file_entry)
  : string :=
  (Json.dumps (manifest_obj generated files_map) ++ Json.newline)%string.

Definition wrote_line (out_path : string) (n : nat) : string :=
  ("Wrote manifest to " ++ out_path ++ " (" ++ str_of_nat n ++ " files)")%string.

(** [os.path.dirname(out_path) or '.'] *)
Definition parent_of (out_path : string) : string :=
  let parent := Path.dirname out_path in
  if parent =? "" then "." else parent.

(** [write_output] up to its last statement: the result is the exception
    raised before the final [print], or the line handed to [print], and the
    file system left behind. The [print] itself is [print_line], run by
    [main], the caller, which sees its exception as raised from here. *)
Definition write_output (h : host) (fs : filesystem) (out_path : string)
                        (files_map : dict file_entry)
  : (exn + string) * filesystem :=
  let text := document (now_utc_isoformat h) files_map in
  match makedirs h fs (parent_of out_path) with
  | inl e => (inl e, fs)
  | inr fs1 =>
      let tmp := (out_path ++ ".tmp")%string in
      match write_text h fs1 tmp text with
      | (Some e, fs2) => (inl e, fs2)
      | (None, fs2) =>
          match replace h fs2 tmp out_path with
          | inl e => (inl e, fs2)
          | inr fs3 => (inr (wrote_line out_path (length files_map)), fs3)
          end
      end
  end.

(** ** main *)

(** The namespace [parse_args] returns. *)
Record arguments := Arguments {
  source : list string;
  output : string;
  include_ext : list string
}.

Definition default_output : string := "kdm_manifest.json".
Definition default_include_ext : list string := [".json"].

(** The namespace of a command line: [-e] appends to the default list. *)
Definition parse_args (sources : list string) (out : option string)
                      (exts : list string) : arguments :=
  Arguments sources
            (match out with Some o => o | None => default_output end)
            (default_include_ext ++ exts).

Definition error_no_source : string :=
  "Error: at least one --source (-s) is required".

Definition error_no_files : string :=
  "Error: no files found in any sources".

Definition warn_missing (path : string) : string :=
  ("Warning: source directory does not exist, skipping: " ++ path)%string.

Definition warn_duplicate (k : string) : string :=
  ("Warning: duplicate key in manifest for " ++ k
     ++ ", overwriting with latest source")%string.

(** A source is [key=path] or a bare [path]. *)
Definition parse_source (s : string) : string * string :=
  if contains "=" s then
    let (key, path) := split_once "=" s in (strip key, strip path)
  else (Path.basename (Path.normpath s), s).

(** One turn of the merge loop. *)
Definition merge_one (acc : dict file_entry * list string)
                     (kv : string * file_entry)
  : dict file_entry * list string :=
  let (k, v) := kv in
  (dict_set k v (fst acc),
   if dict_mem k (fst acc) then snd acc ++ [warn_duplicate k] else snd acc).

(** One turn of the loop over the sources, on [combined] and the lines
    written to [stderr] so far. *)
Definition visit_source (h : host) (fs : filesystem)
                        (acc : dict file_entry * list string) (s : string)
  : dict file_entry * list string :=
  let (key, path) := parse_source s in
  if negb (isdir fs path) then (fst acc, snd acc ++ [warn_missing path])
  else
    let (files_map, warnings) := build_manifest h fs path key in
    fold_left merge_one files_map (fst acc, snd acc ++ warnings).

Definition source_path (s : string) : string := snd (parse_source s).
Definition source_key (s : string) : string := fst (parse_source s).

(** [combined] and the lines written to [stderr]. *)
Definition merged : Type := dict file_entry * list string.

(** The manifest and the warnings of one source. *)
Definition manifest_of (h : host) (fs : filesystem) (s : string) : merged :=
  build_manifest h fs (source_path s) (source_key s).

(** The sources whose path is a directory. *)
Definition valid_sources (fs : filesystem) (sources : list string)
  : list string :=
  filter (fun s => isdir fs (source_path s)) sources.

Definition process_sources (h : host) (fs : filesystem) (sources : list string)
  : dict file_entry * list string :=
  fold_left (visit_source h fs) sources ([], []).

Inductive outcome : Type :=
| Exit (code : Z)
| Raised (e : exn).

Record run := Run {
  result : outcome;
  stderr : list string;
  stdout : list string;
  after : filesystem
}.

(** [print(line)] on [sys.stdout]. *)
Definition print_line (h : host) (line : string) : option exn :=
  if print_fails h line then Some (PrintError line) else None.

Definition normalize_ext (e : string) : string :=
  if startswith e "." then e else ("." ++ e)%string.

Definition main (h : host) (fs : filesystem) (args : arguments) : run :=
  match source args with
  | [] => Run (Exit 2) [error_no_source] [] fs
  | _ =>
      let exts := map normalize_ext (include_ext args) in
      let (combined, err) := process_sources h fs (source args) in
      match combined with
      | [] => Run (Exit 2) (err ++ [error_no_files]) [] fs
      | _ =>
          match write_output h fs (output args) combined with
          | (inl e, fs') => Run (Raised e) err [] fs'
          | (inr line, fs') =>
              match print_line h line with
              | Some e => Run (Raised e) err [] fs'
              | None => Run (Exit 0) err [line] fs'
              end
          end
      end
  end.

(** ** A small world to run the script in *)

Module Example.
Definition calm : host :=
  Host "/repo" "2025-11-11T10:00:00.250000+00:00" (fun _ l => l)
       (fun _ => false) (fun _ => false) (fun _ => None) (fun _ _ => false)
       (fun _ => 0) (fun _ => false).

Definition cards : entry :=
  Dir [("b.json", File); ("a.txt", File); ("sub", Dir [("X.JSON", File)]);
       ("gone.json", File); ("a.json", File)].

Definition files : list (string * string) :=
  [("cards/a.json", "{}"); ("cards/b.json", "[1]"); ("cards/a.txt", "text");
   ("cards/sub/X.JSON", "{}x"); ("other/a.json", "{}!")].

Definition fs : filesystem :=
  FileSystem
    (fun p => if p =? "cards" then Some cards
              else if p =? "other" then Some (Dir [("a.json", File)])
              else if p =? "." then Some (Dir [])
              else None)
    (fun p => match lookup p files with
              | Some text => inr (bytes_of text)
              | None => inl no_such_file
              end).

(** A later run, on a host that enumerates directories backwards. *)
Definition backwards : host :=
  Host "/repo" "2025-11-11T10:05:00.750000+00:00" (fun _ l => rev l)
       (fun _ => false) (fun _ => false) (fun _ => None) (fun _ _ => false)
       (fun _ => 0) (fun _ => false).

(** A host whose disk fills up ten bytes into any write. *)
Definition full_disk : host :=
  Host "/repo" "2025-11-11T10:00:00.250000+00:00" (fun _ l => l)
       (fun _ => false) (fun _ => false) (fun _ => Some 10)
       (fun _ _ => false) (fun _ => 0) (fun _ => false).

Definition manifest : dict file_entry :=
  [("cards/b.json", FileEntry "bb" 3); ("cards/a.json", FileEntry "aa" 2)].

(** The seven bytes of the JSON text that maps the key a to 1. *)
Definition a1 : list byte := [x7b; x22; x61; x22; x3a; x31; x7d].

(** A source [cards] with the single file [foo.json] holding those bytes. *)
Definition foo_fs : filesystem :=
  FileSystem
    (fun p => if p =? "cards" then Some (Dir [("foo.json", File)])
              else if p =? "." then Some (Dir [])
              else None)
    (fun p => if p =? "cards/foo.json" then inr a1 else inl no_such_file).

(** A directory enumerated as [b.json], [a.json], [c.txt]. *)
Definition abc_fs : filesystem :=
  FileSystem
    (fun p => if p =? "d" then
                Some (Dir [("b.json", File); ("a.json", File); ("c.txt", File)])
              else None)
    (fun p => inr []).
End Example.


(** ** Parts of the functions, named for the properties below *)

(** The header [git_blob_sha1] feeds to the hash object before the data. *)
Definition blob_header (data : list byte) : list byte :=
  bytes_of "blob " ++ bytes_of (str_of_nat (length data)) ++ [x00].

(** The line the loop of [build_manifest] writes for one gathered file. *)
Definition read_warning (fs : filesystem) (file : string * string)
  : list string :=
  match content fs (fst file) with
  | inl e => [warn_read_failed (fst file) e]
  | inr _ => []
  end.

(** The entry the loop of [build_manifest] binds for the bytes of a file. *)
Definition entry_of (data : list byte) : file_entry :=
  FileEntry (git_blob_sha1 data) (length data).

(** The bindings of [files_map] in the order the loop of [write_output]
    binds them in [obj['files']]. *)
Definition sorted_entries (files_map : dict file_entry) : dict file_entry :=
  fold_left (fun entries k =>
               match lookup k files_map with
               | Some v => dict_set k v entries
               | None => entries
               end)
            (sorted (keys files_map)) [].

(** The text of the output file, character by character: the layout the
    docstring of the script shows, as [json.dump] with [indent=2] prints it
    (an object per entry, a member per line), and the final newline. Only
    the strings are left to the encoder. *)
Module Text.
Local Open Scope string_scope.

Definition lf : string := String (ascii_of_nat 10) "".

Definition in_quotes (s : string) : string :=
  String (ascii_of_nat 34) (s ++ String (ascii_of_nat 34) "").

Definition entry_text (v : file_entry) : string :=
  "{" ++ lf
  ++ "      " ++ in_quotes "sha" ++ ": " ++ Json.encode_string (sha v) ++ "," ++ lf
  ++ "      " ++ in_quotes "size" ++ ": " ++ str_of_nat (size v) ++ lf
  ++ "    }".

Definition member_text (kv : string * file_entry) : string :=
  Json.encode_string (fst kv) ++ ": " ++ entry_text (snd kv).

Definition manifest_text (generated : string)
                         (entries : list (string * file_entry)) : string :=
  "{" ++ lf
  ++ "  " ++ in_quotes "generated" ++ ": " ++ Json.encode_string generated ++ "," ++ lf
  ++ "  " ++ in_quotes "files" ++ ": {" ++ lf
  ++ "    " ++ String.concat ("," ++ lf ++ "    ") (map member_text entries) ++ lf
  ++ "  }" ++ lf
  ++ "}" ++ lf.

(** A string the encoder has nothing to escape in. *)
Fixpoint plain (s : string) : bool :=
  match s with
  | EmptyString => true
  | String c r =>
      let n := nat_of_ascii c in
      (32 <=? n)%nat && negb (n =? 34)%nat && negb (n =? 92)%nat && plain r
  end.
End Text.

Module Scenario.
(** Bytes written with an apostrophe for the double quote, a bar for the
    newline and an exclamation mark for the backslash. *)
Fixpoint literal (s : string) : list byte :=
  match s with
  | EmptyString => []
  | String c r =>
      (if Ascii.eqb c "'" then x22
       else if Ascii.eqb c "|" then x0a
       else if Ascii.eqb c "!" then x5c
       else byte_of_ascii c) :: literal r
  end.

(** A map put together out of order, one key holding a double quote. *)
Definition quoted : dict file_entry :=
  [("z.json", FileEntry "bb" 3);
   (String "a" (String (ascii_of_nat 34) "b.json"), FileEntry "aa" 2)].

Definition quoted_document : list byte :=
  literal ("{|  'generated': '2025-11-11T10:00:00.250000+00:00',|  'files': {|"
           ++ "    'a!'b.json': {|      'sha': 'aa',|      'size': 2|    },|"
           ++ "    'z.json': {|      'sha': 'bb',|      'size': 3|    }|  }|}|").


(** A source given as [k=p] with a no-break space around each part. *)
Definition nbsp : string := String (ascii_of_nat 194) (String (ascii_of_nat 160) "").
Definition padded_source : string :=
  (nbsp ++ "k" ++ nbsp ++ "=" ++ nbsp ++ "p" ++ nbsp)%string.

(** A directory whose single file has a name that is not UTF-8. *)
Definition odd_name : string := String (ascii_of_nat 255) ".json".
Definition odd_fs : filesystem :=
  FileSystem
    (fun p => if p =? "d" then Some (Dir [(odd_name, File)])
              else if p =? "." then Some (Dir [])
              else None)
    (fun p => inr [x31]).
(** A tree with a directory and a file that give the same relative path
    once backslashes are replaced. *)
Definition clash : entry :=
  Dir [("a", Dir [("b.json", File)]);
       (String "a" (String backslash "b.json"), File)].

Definition clash_fs : filesystem :=
  FileSystem
    (fun p => if p =? "d" then Some clash
              else if p =? "." then Some (Dir [])
              else None)
    (fun p => if p =? "d/a/b.json" then inr [x31]
              else if p =? String "d" (String "/" (String "a"
                              (String backslash "b.json")))
                   then inr [x32; x32]
              else inl no_such_file).
End Scenario.

(** * Properties *)

(** ** The hash object and the one-shot digest agree *)

Module SHA1Facts.
Import SHA1.

Lemma absorb_blocks (n : nat) : forall s bs,
  absorb n s bs = (fold_left compress (blocks n bs) s, skipn (64 * n) bs).
Proof.
  induction n as [|n IH]; intros s bs.
  - reflexivity.
  - cbn [absorb blocks fold_left]. rewrite IH, skipn_skipn.
    do 2 f_equal. lia.
Qed.

Lemma blocks_app_l (q : nat) : forall l r,
  64 * q <= length l -> blocks q (l ++ r) = blocks q l.
Proof.
  induction q as [|q IH]; intros l r Hq.
  - reflexivity.
  - cbn [blocks]. rewrite firstn_app, skipn_app.
    replace (64 - length l) with 0 by lia.
    rewrite firstn_O, skipn_O, app_nil_r. f_equal. apply IH. rewrite length_skipn. lia.
Qed.

Lemma blocks_add (q : nat) : forall n l,
  blocks (q + n) l = blocks q l ++ blocks n (skipn (64 * q) l).
Proof.
  induction q as [|q IH]; intros n l.
  - reflexivity.
  - cbn [Nat.add blocks app]. rewrite IH, skipn_skipn.
    replace (64 * S q) with (64 * q + 64) by lia. reflexivity.
Qed.

Lemma fed_new : fed new [].
Proof. repeat split. Qed.

Lemma div_split (a b : nat) :
  (a + b) / 64 = a / 64 + (a mod 64 + b) / 64.
Proof.
  rewrite (Nat.div_mod_eq a 64) at 1.
  rewrite <- Nat.add_assoc, Nat.mul_comm, Nat.div_add_l by lia.
  reflexivity.
Qed.

Lemma absorb_pending (h : hasher) (m d : list Z) :
  fed h m ->
  absorb (length (pending h ++ d) / 64) (chain h) (pending h ++ d)
  = (fold_left compress (blocks (length (m ++ d) / 64) (m ++ d)) init,
     skipn (64 * (length (m ++ d) / 64)) (m ++ d)).
Proof.
  intros (Hc & Hp & _).
  assert (Hq : 64 * (length m / 64) <= length m)
    by (pose proof (Nat.div_mod_eq (length m) 64); lia).
  assert (Hlen : length (pending h ++ d) = length m mod 64 + length d).
  { rewrite Hp, length_app, length_skipn.
    pose proof (Nat.div_mod_eq (length m) 64). lia. }
  assert (Hs : skipn (64 * (length m / 64)) (m ++ d) = pending h ++ d).
  { rewrite skipn_app, Hp.
    replace (64 * (length m / 64) - length m) with 0 by lia.
    rewrite skipn_O. reflexivity. }
  rewrite absorb_blocks, Hlen, length_app.
  rewrite (div_split (length m) (length d)).
  set (q := length m / 64) in *. set (n := (length m mod 64 + length d) / 64).
  rewrite (blocks_add q n (m ++ d)), fold_left_app, (blocks_app_l q m d Hq).
  rewrite Hs, <- Hc. f_equal.
  replace (64 * (q + n)) with (64 * n + 64 * q) by lia.
  rewrite <- skipn_skipn, Hs. reflexivity.
Qed.

Lemma fed_update (h : hasher) (m : list Z) (d : list byte) :
  fed h m -> fed (update h d) (m ++ map byte_value d).
Proof.
  intros Hf. unfold update.
  rewrite (absorb_pending h m (map byte_value d) Hf).
  destruct Hf as (_ & _ & Ht).
  repeat split; cbn [chain pending total].
  rewrite Ht, length_app, length_map. reflexivity.
Qed.

Lemma fed_finish (h : hasher) (m : list Z) : fed h m -> finish h = digest m.
Proof.
  intros Hf. unfold finish, digest, pad.
  destruct Hf as (Hc & Hp & Ht). rewrite Ht.
  rewrite (absorb_pending h m _ (conj Hc (conj Hp Ht))). reflexivity.
Qed.

(** Feeding [a] and then [b] gives the digest of [a ++ b]. *)
Lemma two_updates (a b : list byte) :
  hexdigest (update (update new a) b) = sha1_hex (a ++ b).
Proof.
  unfold hexdigest, sha1_hex. f_equal.
  rewrite (fed_finish _ (map byte_value a ++ map byte_value b)).
  - rewrite map_app. reflexivity.
  - apply fed_update. apply (fed_update new [] a fed_new).
Qed.

Lemma hex_length (s : state) : String.length (hex s) = 40.
Proof. reflexivity. Qed.

Lemma hex_digit_lower (n : Z) : In (hex_digit n) hex_alphabet.
Proof.
  unfold hex_digit.
  destruct (Nat.lt_ge_cases (Z.to_nat (Z.land n 15)) (length hex_alphabet))
    as [Hlt | Hge].
  - apply nth_In. exact Hlt.
  - rewrite nth_overflow by exact Hge. cbn. tauto.
Qed.

Lemma hex_lower (s : state) :
  Forall (fun c => In c hex_alphabet) (list_ascii_of_string (hex s)).
Proof.
  unfold hex, hex_word. cbn [list_ascii_of_string].
  repeat (constructor; [apply hex_digit_lower|]). constructor.
Qed.

(** The digests of the FIPS 180 sample messages. *)
Example sha1_test_vectors :
  sha1_hex (bytes_of "abc") = "a9993e364706816aba3e25717850c26c9cd0d89d"
  /\ sha1_hex [] = "da39a3ee5e6b4b0d3255bfef95601890afd80709"
  /\ sha1_hex
       (bytes_of "abcdbcdecdefdefgefghfghighijhijkijkljklmklmnlmnomnopnopq")
     = "84983e441c3bd26ebaae4aa1f95129e5e54670f1".
Proof. vm_compute. repeat split. Qed.
End SHA1Facts.

(** ** git_blob_sha1 *)

(** C1. For every byte buffer [b], [git_blob_sha1 b] is the lowercase
    hexadecimal rendering, 40 characters long, of the SHA-1 digest of the
    stream made of the header (the text blob, a space, the decimal length of
    [b], a NUL byte) followed by [b]; for the seven bytes of the sample JSON
    text it is the SHA-1 of the literal bytes blob 7 NUL followed by them. *)
Theorem git_blob_sha1_is_sha1_of_blob_stream :
  (forall b : list byte,
      git_blob_sha1 b
      = SHA1.sha1_hex (bytes_of "blob " ++ bytes_of (str_of_nat (length b))
                         ++ [x00] ++ b)
      /\ String.length (git_blob_sha1 b) = 40
      /\ Forall (fun c => In c SHA1.hex_alphabet)
                (list_ascii_of_string (git_blob_sha1 b)))
  /\ git_blob_sha1 Example.a1
     = SHA1.sha1_hex (bytes_of "blob 7" ++ [x00] ++ Example.a1)
  /\ git_blob_sha1 Example.a1 = "daa5053ecf5f9a37b2de733d0751cc1ab53ac010".
Proof.
  assert (Hstream : forall b : list byte,
             git_blob_sha1 b
             = SHA1.sha1_hex (bytes_of "blob " ++ bytes_of (str_of_nat (length b))
                                ++ [x00] ++ b)).
  { intros b. unfold git_blob_sha1. rewrite SHA1Facts.two_updates.
    rewrite <- !app_assoc. reflexivity. }
  split; [intros b; split; [apply Hstream | split]| split].
  - apply SHA1Facts.hex_length.
  - apply SHA1Facts.hex_lower.
  - rewrite Hstream. reflexivity.
  - vm_compute. reflexivity.
Qed.

(** ** Strings: order, sorting, suffixes *)

Module StrFacts.
Local Open Scope string_scope.

Lemma ascii_compare_refl (c : ascii) : Ascii.compare c c = Eq.
Proof. unfold Ascii.compare. apply N.compare_refl. Qed.

Lemma compare_refl (s : string) : String.compare s s = Eq.
Proof.
  induction s as [|c s IH]; cbn; [reflexivity|].
  rewrite ascii_compare_refl. exact IH.
Qed.

Lemma ascii_compare_trans (x y z : ascii) (o : comparison) :
  o <> Eq -> Ascii.compare x y = o -> Ascii.compare y z = o ->
  Ascii.compare x z = o.
Proof.
  unfold Ascii.compare. intros Ho Hxy Hyz.
  destruct o; [congruence| |].
  - pose proof (proj1 (N.compare_lt_iff _ _) Hxy).
    pose proof (proj1 (N.compare_lt_iff _ _) Hyz).
    apply N.compare_lt_iff. lia.
  - pose proof (proj1 (N.compare_gt_iff _ _) Hxy).
    pose proof (proj1 (N.compare_gt_iff _ _) Hyz).
    apply N.compare_gt_iff. lia.
Qed.

Lemma le_trans (a : string) : forall b c, str_le a b -> str_le b c -> str_le a c.
Proof.
  unfold str_le, String.leb.
  induction a as [|x a IH]; intros [|y b] [|z c]; cbn; try congruence.
  destruct (Ascii.compare x y) eqn:Hxy; try congruence;
    destruct (Ascii.compare y z) eqn:Hyz; try congruence.
  - apply Ascii.compare_eq_iff in Hxy, Hyz. subst.
    rewrite ascii_compare_refl. apply IH.
  - apply Ascii.compare_eq_iff in Hxy. subst. rewrite Hyz. trivial.
  - apply Ascii.compare_eq_iff in Hyz. subst. rewrite Hxy. trivial.
  - rewrite (ascii_compare_trans x y z Lt) by congruence. trivial.
Qed.

Lemma le_refl (a : string) : str_le a a.
Proof. unfold str_le, String.leb. rewrite compare_refl. reflexivity. Qed.

Lemma le_neq_lt (a b : string) : str_le a b -> a <> b -> str_lt a b.
Proof.
  unfold str_le, str_lt, String.leb, String.ltb. intros Hle Hne.
  destruct (String.compare a b) eqn:Hc; try congruence.
  apply String.compare_eq_iff in Hc. contradiction.
Qed.

Lemma lt_le (a b : string) : str_lt a b -> str_le a b.
Proof.
  unfold str_le, str_lt, String.leb, String.ltb.
  destruct (String.compare a b); congruence.
Qed.

Lemma lt_irrefl (a : string) : ~ str_lt a a.
Proof. unfold str_lt, String.ltb. rewrite compare_refl. discriminate. Qed.

(** *** [sorted] *)

Lemma insert_sorted_perm (x : string) (l : list string) :
  Permutation (insert_sorted x l) (x :: l).
Proof.
  induction l as [|y l IH]; cbn; [reflexivity|].
  destruct (x <=? y); [reflexivity|].
  rewrite IH. apply perm_swap.
Qed.

Lemma sorted_perm (l : list string) : Permutation (sorted l) l.
Proof.
  induction l as [|x l IH]; cbn; [reflexivity|].
  rewrite insert_sorted_perm. apply perm_skip. exact IH.
Qed.

Lemma insert_sorted_ordered (x : string) (l : list string) :
  StronglySorted str_le l -> StronglySorted str_le (insert_sorted x l).
Proof.
  induction 1 as [|y l Hs IH Hall]; cbn.
  - repeat constructor.
  - destruct (x <=? y) eqn:Hxy.
    + constructor; [constructor; assumption|].
      constructor; [exact Hxy|].
      eapply Forall_impl; [|exact Hall]. intros z. apply le_trans. exact Hxy.
    + constructor; [exact IH|].
      assert (Hyx : str_le y x).
      { destruct (String.leb_total x y) as [H|H]; [congruence | exact H]. }
      eapply Permutation_Forall;
        [symmetry; apply insert_sorted_perm|].
      constructor; assumption.
Qed.

Lemma sorted_ordered (l : list string) : StronglySorted str_le (sorted l).
Proof.
  induction l as [|x l IH]; cbn; [constructor|].
  apply insert_sorted_ordered. exact IH.
Qed.

(** Two ordered lists with the same elements are the same list. *)
Lemma ordered_unique (l1 : list string) : forall l2,
  StronglySorted str_le l1 -> StronglySorted str_le l2 -> Permutation l1 l2 ->
  l1 = l2.
Proof.
  induction l1 as [|x l1 IH]; intros l2 H1 H2 Hp.
  - apply Permutation_nil in Hp. congruence.
  - destruct l2 as [|y l2].
    { symmetry in Hp. apply Permutation_nil in Hp. discriminate. }
    inversion H1 as [|? ? Hs1 Hall1]; subst.
    inversion H2 as [|? ? Hs2 Hall2]; subst.
    assert (Hxy : x = y).
    { assert (Hx : In x (y :: l2))
        by (eapply Permutation_in; [exact Hp | left; reflexivity]).
      assert (Hy : In y (x :: l1))
        by (eapply Permutation_in; [symmetry; exact Hp | left; reflexivity]).
      destruct Hx as [Hx | Hx]; [congruence|].
      destruct Hy as [Hy | Hy]; [congruence|].
      rewrite Forall_forall in Hall1, Hall2.
      apply String.leb_antisym; [apply Hall1 | apply Hall2]; assumption. }
    subst y. f_equal. apply IH; try assumption.
    eapply Permutation_cons_inv. exact Hp.
Qed.

Lemma sorted_of_perm (l1 l2 : list string) :
  Permutation l1 l2 -> sorted l1 = sorted l2.
Proof.
  intros Hp. apply ordered_unique; try apply sorted_ordered.
  rewrite !sorted_perm. exact Hp.
Qed.
End StrFacts.

(** ** Dictionaries *)

Module DictFacts.
Section Dict.
Context {V : Type}.
Implicit Types (d : dict V) (k : string) (v : V).

Lemma lookup_cons k k' v d :
  lookup k ((k', v) :: d) = if k' =? k then Some v else lookup k d.
Proof. unfold lookup. cbn. destruct (k' =? k); reflexivity. Qed.

Lemma mem_cons k k' v d :
  dict_mem k ((k', v) :: d) = (k' =? k) || dict_mem k d.
Proof. reflexivity. Qed.

Lemma mem_lookup k d :
  dict_mem k d = match lookup k d with Some _ => true | None => false end.
Proof.
  induction d as [|[k' v'] d IH]; [reflexivity|].
  rewrite mem_cons, lookup_cons, IH. destruct (k' =? k); reflexivity.
Qed.

Lemma mem_keys k d : dict_mem k d = true <-> In k (keys d).
Proof.
  induction d as [|[k' v'] d IH]; cbn [keys map In fst].
  - split; [discriminate | contradiction].
  - rewrite mem_cons, orb_true_iff, IH, String.eqb_eq. reflexivity.
Qed.

Lemma lookup_in k v d : lookup k d = Some v -> In (k, v) d.
Proof.
  induction d as [|[k' v'] d IH]; [discriminate|].
  rewrite lookup_cons. destruct (String.eqb_spec k' k) as [->|Hne].
  - intros [= ->]. left. reflexivity.
  - intros H. right. apply IH. exact H.
Qed.

Lemma lookup_set_same k v d : lookup k (dict_set k v d) = Some v.
Proof.
  induction d as [|[k' v'] d IH]; cbn [dict_set].
  - rewrite lookup_cons, String.eqb_refl. reflexivity.
  - destruct (String.eqb_spec k' k) as [->|Hne]; rewrite lookup_cons.
    + rewrite String.eqb_refl. reflexivity.
    + apply String.eqb_neq in Hne. rewrite Hne. exact IH.
Qed.

Lemma lookup_set_other k k' v d :
  k <> k' -> lookup k' (dict_set k v d) = lookup k' d.
Proof.
  intros Hne. induction d as [|[k0 v0] d IH]; cbn [dict_set].
  - rewrite lookup_cons. apply String.eqb_neq in Hne. rewrite Hne.
    reflexivity.
  - destruct (String.eqb_spec k0 k) as [->|Hne0]; rewrite !lookup_cons.
    + apply String.eqb_neq in Hne. rewrite Hne. reflexivity.
    + rewrite IH. reflexivity.
Qed.

Lemma mem_set k k' v d :
  dict_mem k' (dict_set k v d) = (k =? k') || dict_mem k' d.
Proof.
  rewrite !mem_lookup. destruct (String.eqb_spec k k') as [->|Hne].
  - rewrite lookup_set_same. reflexivity.
  - rewrite lookup_set_other by exact Hne. reflexivity.
Qed.

Lemma keys_set k v d :
  keys (dict_set k v d) = if dict_mem k d then keys d else keys d ++ [k].
Proof.
  induction d as [|[k' v'] d IH]; [reflexivity|].
  cbn [dict_set]. rewrite mem_cons.
  destruct (k' =? k); cbn [orb keys map fst]; [reflexivity|].
  fold (keys (dict_set k v d)). rewrite IH.
  destruct (dict_mem k d); reflexivity.
Qed.

Lemma set_nodup k v d : NoDup (keys d) -> NoDup (keys (dict_set k v d)).
Proof.
  intros Hd. rewrite keys_set. destruct (dict_mem k d) eqn:Hm; [exact Hd|].
  apply NoDup_app; [exact Hd | repeat constructor; intros [] |].
  intros x Hx [<-|[]]. apply mem_keys in Hx. congruence.
Qed.

Lemma lookup_absent k d : ~ In k (keys d) -> lookup k d = None.
Proof.
  intros Hk. pose proof (mem_lookup k d) as Hm.
  destruct (lookup k d); [|reflexivity].
  apply mem_keys in Hm. contradiction.
Qed.

(** A binding of a dictionary is the one [lookup] finds. *)
Lemma in_lookup k v d : NoDup (keys d) -> In (k, v) d -> lookup k d = Some v.
Proof.
  induction d as [|[k' v'] d IH]; [contradiction|].
  cbn [keys map fst]. intros Hnd [Heq | Hin]; rewrite lookup_cons.
  - injection Heq as -> ->. rewrite String.eqb_refl. reflexivity.
  - inversion Hnd as [|? ? Hnot Hnd']; subst.
    destruct (String.eqb_spec k' k) as [->|Hne].
    + exfalso. apply Hnot. change (In k (keys d)).
      apply (in_map fst) in Hin. exact Hin.
    + apply IH; assumption.
Qed.
End Dict.
End DictFacts.

(** ** The loop of build_manifest *)

Module BuildFacts.
Import DictFacts.

Section Loop.
Variables (fs : filesystem) (source_key : string).

Lemma read_one_unreadable acc full rel e :
  content fs full = inl e ->
  read_one fs source_key acc (full, rel) = (fst acc, snd acc ++ [warn_read_failed full e]).
Proof. unfold read_one. intros ->. reflexivity. Qed.

Lemma read_one_readable acc full rel data :
  content fs full = inr data ->
  read_one fs source_key acc (full, rel)
  = (dict_set (manifest_key source_key rel)
              (FileEntry (git_blob_sha1 data) (length data)) (fst acc),
     snd acc).
Proof. unfold read_one. intros ->. reflexivity. Qed.

Lemma read_one_nodup acc file :
  NoDup (keys (fst acc)) -> NoDup (keys (fst (read_one fs source_key acc file))).
Proof.
  destruct file as [full rel]. intros H.
  destruct (content fs full) as [e|data] eqn:Hc.
  - rewrite (read_one_unreadable _ _ _ _ Hc). exact H.
  - rewrite (read_one_readable _ _ _ _ Hc). apply set_nodup. exact H.
Qed.

Lemma loop_nodup files : forall acc,
  NoDup (keys (fst acc)) -> NoDup (keys (fst (fold_left (read_one fs source_key) files acc))).
Proof.
  induction files as [|file files IH]; intros acc H; [exact H|].
  cbn. apply IH. apply read_one_nodup. exact H.
Qed.

Lemma read_one_keeps_line acc file w :
  In w (snd acc) -> In w (snd (read_one fs source_key acc file)).
Proof.
  destruct file as [full rel]. intros H.
  destruct (content fs full) as [e|data] eqn:Hc.
  - rewrite (read_one_unreadable _ _ _ _ Hc). apply in_or_app. tauto.
  - rewrite (read_one_readable _ _ _ _ Hc). exact H.
Qed.

Lemma loop_keeps_line files : forall acc w,
  In w (snd acc) -> In w (snd (fold_left (read_one fs source_key) files acc)).
Proof.
  induction files as [|file files IH]; intros acc w H; [exact H|].
  cbn. apply IH. apply read_one_keeps_line. exact H.
Qed.

(** Every file that cannot be read is reported. *)
Lemma loop_warns files : forall acc full rel e,
  In (full, rel) files -> content fs full = inl e ->
  In (warn_read_failed full e) (snd (fold_left (read_one fs source_key) files acc)).
Proof.
  induction files as [|file files IH]; intros acc full rel e Hin Hc;
    [contradiction|].
  cbn [fold_left]. destruct Hin as [-> | Hin].
  - apply loop_keeps_line. rewrite (read_one_unreadable _ _ _ _ Hc).
    apply in_or_app. right. left. reflexivity.
  - eapply IH; eassumption.
Qed.

(** The manifest is the one of the readable files alone. *)
Lemma loop_skips_unreadable files : forall acc acc',
  fst acc = fst acc' ->
  fst (fold_left (read_one fs source_key) files acc)
  = fst (fold_left (read_one fs source_key) (filter (readable fs) files) acc').
Proof.
  induction files as [|[full rel] files IH]; intros acc acc' Heq;
    [exact Heq|].
  cbn [fold_left filter]. unfold readable at 1. cbn [fst].
  destruct (content fs full) as [e|data] eqn:Hc.
  - apply IH. rewrite (read_one_unreadable _ _ _ _ Hc). exact Heq.
  - cbn [fold_left]. apply IH.
    rewrite !(read_one_readable _ _ _ _ Hc). cbn [fst]. rewrite Heq.
    reflexivity.
Qed.

(** A key that only unreadable files would give is not bound. *)
Lemma loop_leaves_out files k : forall acc,
  (forall full rel, In (full, rel) files ->
                    manifest_key source_key rel = k ->
                    readable fs (full, rel) = false) ->
  dict_mem k (fst acc) = false ->
  dict_mem k (fst (fold_left (read_one fs source_key) files acc)) = false.
Proof.
  induction files as [|[full rel] files IH]; intros acc Hall Hm;
    [exact Hm|].
  cbn [fold_left]. apply IH.
  - intros full' rel' Hin. apply Hall. right. exact Hin.
  - destruct (content fs full) as [e|data] eqn:Hc.
    + rewrite (read_one_unreadable _ _ _ _ Hc). exact Hm.
    + rewrite (read_one_readable _ _ _ _ Hc). cbn [fst].
      rewrite mem_set, Hm, orb_false_r. apply String.eqb_neq.
      intros Hk. specialize (Hall full rel (or_introl eq_refl) Hk).
      unfold readable in Hall. cbn [fst] in Hall. rewrite Hc in Hall.
      discriminate.
Qed.
End Loop.

Lemma build_manifest_nodup h fs dir key :
  NoDup (keys (fst (build_manifest h fs dir key))).
Proof. apply loop_nodup. constructor. Qed.
End BuildFacts.

(** ** The merge of the sources *)

Module MergeFacts.
Import DictFacts.

Lemma merge_one_fst (acc : merged) kv :
  fst (merge_one acc kv) = dict_set (fst kv) (snd kv) (fst acc).
Proof. destruct kv. reflexivity. Qed.

Lemma merge_one_keeps_line (acc : merged) kv w :
  In w (snd acc) -> In w (snd (merge_one acc kv)).
Proof.
  destruct kv as [k v]. cbn. destruct (dict_mem k (fst acc)); [|tauto].
  intros H. apply in_or_app. left. exact H.
Qed.

Lemma merge_keeps_line (fm : dict file_entry) : forall (acc : merged) w,
  In w (snd acc) -> In w (snd (fold_left merge_one fm acc)).
Proof.
  induction fm as [|kv fm IH]; intros acc w H; [exact H|].
  cbn. apply IH. apply merge_one_keeps_line. exact H.
Qed.

Lemma merge_keeps_key (fm : dict file_entry) : forall (acc : merged) k,
  dict_mem k (fst acc) = true ->
  dict_mem k (fst (fold_left merge_one fm acc)) = true.
Proof.
  induction fm as [|kv fm IH]; intros acc k H; [exact H|].
  cbn. apply IH. rewrite merge_one_fst, mem_set, H. apply orb_true_r.
Qed.

Lemma merge_untouched (fm : dict file_entry) : forall (acc : merged) k,
  ~ In k (keys fm) ->
  lookup k (fst (fold_left merge_one fm acc)) = lookup k (fst acc).
Proof.
  induction fm as [|[k' v'] fm IH]; intros acc k Hk; [reflexivity|].
  cbn [fold_left]. rewrite IH by (intros H; apply Hk; right; exact H).
  rewrite merge_one_fst. apply lookup_set_other.
  intros Heq. apply Hk. left. exact Heq.
Qed.

(** A key of the merged map ends up bound to the entry of that map. *)
Lemma merge_binds (fm : dict file_entry) : forall (acc : merged) k v,
  NoDup (keys fm) -> lookup k fm = Some v ->
  lookup k (fst (fold_left merge_one fm acc)) = Some v.
Proof.
  induction fm as [|[k' v'] fm IH]; intros acc k v Hnd Hl; [discriminate|].
  cbn [keys map fst] in Hnd. inversion Hnd as [|? ? Hnot Hnd']; subst.
  rewrite lookup_cons in Hl. cbn [fold_left].
  destruct (String.eqb_spec k' k) as [->|Hne].
  - injection Hl as ->. rewrite merge_untouched by exact Hnot.
    rewrite merge_one_fst. apply lookup_set_same.
  - apply IH; assumption.
Qed.

(** A key already present when a map that has it is merged is reported. *)
Lemma merge_warns (fm : dict file_entry) : forall (acc : merged) k,
  In k (keys fm) -> dict_mem k (fst acc) = true ->
  In (warn_duplicate k) (snd (fold_left merge_one fm acc)).
Proof.
  induction fm as [|[k' v'] fm IH]; intros acc k Hin Hm; [contradiction|].
  cbn [fold_left]. destruct Hin as [Heq | Hin].
  - cbn in Heq. subst k'. apply merge_keeps_line. cbn. rewrite Hm.
    apply in_or_app. right. left. reflexivity.
  - apply IH; [exact Hin|].
    rewrite merge_one_fst, mem_set, Hm. apply orb_true_r.
Qed.

Lemma merge_keeps_key_of (fm : dict file_entry) : forall (acc : merged) k,
  dict_mem k fm = true ->
  dict_mem k (fst (fold_left merge_one fm acc)) = true.
Proof.
  induction fm as [|[k' v'] fm IH]; intros acc k H; [discriminate|].
  cbn [fold_left]. rewrite mem_cons in H.
  destruct (String.eqb_spec k' k) as [->|Hne].
  - apply merge_keeps_key. rewrite merge_one_fst, mem_set.
    cbn [fst]. rewrite String.eqb_refl. reflexivity.
  - apply IH. exact H.
Qed.

Section Sources.
Variables (h : host) (fs : filesystem).

Lemma visit_valid (acc : merged) s :
  isdir fs (source_path s) = true ->
  visit_source h fs acc s
  = fold_left merge_one (fst (manifest_of h fs s))
              (fst acc, snd acc ++ snd (manifest_of h fs s)).
Proof.
  unfold visit_source, manifest_of, source_path, source_key.
  destruct (parse_source s) as [key path]. cbn [fst snd]. intros ->.
  cbn [negb]. destruct (build_manifest h fs path key). reflexivity.
Qed.

Lemma visit_invalid (acc : merged) s :
  isdir fs (source_path s) = false ->
  visit_source h fs acc s
  = (fst acc, snd acc ++ [warn_missing (source_path s)]).
Proof.
  unfold visit_source, source_path.
  destruct (parse_source s) as [key path]. cbn [fst snd]. intros ->.
  reflexivity.
Qed.

Lemma visit_keeps_line (acc : merged) s w :
  In w (snd acc) -> In w (snd (visit_source h fs acc s)).
Proof.
  intros H. destruct (isdir fs (source_path s)) eqn:Hd.
  - rewrite visit_valid by exact Hd. apply merge_keeps_line.
    apply in_or_app. left. exact H.
  - rewrite visit_invalid by exact Hd. apply in_or_app. left. exact H.
Qed.

Lemma visit_keeps_key (acc : merged) s k :
  dict_mem k (fst acc) = true ->
  dict_mem k (fst (visit_source h fs acc s)) = true.
Proof.
  intros H. destruct (isdir fs (source_path s)) eqn:Hd.
  - rewrite visit_valid by exact Hd. apply merge_keeps_key. exact H.
  - rewrite visit_invalid by exact Hd. exact H.
Qed.

Lemma visits_keep_line sources : forall (acc : merged) w,
  In w (snd acc) -> In w (snd (fold_left (visit_source h fs) sources acc)).
Proof.
  induction sources as [|s sources IH]; intros acc w H; [exact H|].
  cbn. apply IH. apply visit_keeps_line. exact H.
Qed.

Lemma visits_keep_key sources : forall (acc : merged) k,
  dict_mem k (fst acc) = true ->
  dict_mem k (fst (fold_left (visit_source h fs) sources acc)) = true.
Proof.
  induction sources as [|s sources IH]; intros acc k H; [exact H|].
  cbn. apply IH. apply visit_keeps_key. exact H.
Qed.

Lemma merge_fst_indep (fm : dict file_entry) : forall acc acc' : merged,
  fst acc = fst acc' ->
  fst (fold_left merge_one fm acc) = fst (fold_left merge_one fm acc').
Proof.
  induction fm as [|kv fm IH]; intros acc acc' Heq; [exact Heq|].
  cbn. apply IH. rewrite !merge_one_fst, Heq. reflexivity.
Qed.

Lemma visit_fst_indep (acc acc' : merged) s :
  fst acc = fst acc' ->
  fst (visit_source h fs acc s) = fst (visit_source h fs acc' s).
Proof.
  intros Heq. destruct (isdir fs (source_path s)) eqn:Hd.
  - rewrite !visit_valid by exact Hd. apply merge_fst_indep. exact Heq.
  - rewrite !visit_invalid by exact Hd. exact Heq.
Qed.

(** [combined] is the one of the sources that are directories. *)
Lemma visits_skip_invalid sources : forall acc acc' : merged,
  fst acc = fst acc' ->
  fst (fold_left (visit_source h fs) sources acc)
  = fst (fold_left (visit_source h fs) (valid_sources fs sources) acc').
Proof.
  induction sources as [|s sources IH]; intros acc acc' Heq; [exact Heq|].
  cbn [fold_left valid_sources filter].
  destruct (isdir fs (source_path s)) eqn:Hd.
  - cbn [fold_left]. apply IH. apply visit_fst_indep. exact Heq.
  - apply IH. rewrite visit_invalid by exact Hd. exact Heq.
Qed.

(** Every source that is not a directory is reported. *)
Lemma visits_warn_missing sources : forall (acc : merged) s,
  In s sources -> isdir fs (source_path s) = false ->
  In (warn_missing (source_path s))
     (snd (fold_left (visit_source h fs) sources acc)).
Proof.
  induction sources as [|s' sources IH]; intros acc s Hin Hd;
    [contradiction|].
  cbn [fold_left]. destruct Hin as [-> | Hin].
  - apply visits_keep_line. rewrite visit_invalid by exact Hd.
    apply in_or_app. right. left. reflexivity.
  - apply IH; assumption.
Qed.

(** The warnings of a source that is a directory reach [stderr]. *)
Lemma visits_pass_warnings sources : forall (acc : merged) s w,
  In s sources -> isdir fs (source_path s) = true ->
  In w (snd (manifest_of h fs s)) ->
  In w (snd (fold_left (visit_source h fs) sources acc)).
Proof.
  induction sources as [|s' sources IH]; intros acc s w Hin Hd Hw;
    [contradiction|].
  cbn [fold_left]. destruct Hin as [-> | Hin].
  - apply visits_keep_line. rewrite visit_valid by exact Hd.
    apply merge_keeps_line. apply in_or_app. right. exact Hw.
  - apply (IH _ s); assumption.
Qed.

(** When two directories in a list of sources both give the key [k],
    the entry of the later one is the one left in [combined] by the time
    it has been merged, and the collision is reported. *)
Lemma later_of_two (acc : merged) pre mid s1 s2 k v1 v2 :
  isdir fs (source_path s1) = true ->
  isdir fs (source_path s2) = true ->
  lookup k (fst (manifest_of h fs s1)) = Some v1 ->
  lookup k (fst (manifest_of h fs s2)) = Some v2 ->
  let r := fold_left (visit_source h fs) (pre ++ s1 :: mid ++ [s2]) acc in
  lookup k (fst r) = Some v2 /\ In (warn_duplicate k) (snd r).
Proof.
  intros Hd1 Hd2 Hk1 Hk2.
  rewrite fold_left_app. cbn [fold_left]. rewrite fold_left_app.
  cbn [fold_left].
  set (acc1 := fold_left (visit_source h fs) pre acc).
  set (acc3 := fold_left (visit_source h fs) mid (visit_source h fs acc1 s1)).
  assert (Hm : dict_mem k (fst acc3) = true).
  { apply visits_keep_key. rewrite visit_valid by exact Hd1.
    apply merge_keeps_key_of. rewrite mem_lookup, Hk1. reflexivity. }
  cbn zeta. rewrite visit_valid by exact Hd2. split.
  - apply merge_binds; [apply BuildFacts.build_manifest_nodup | exact Hk2].
  - apply merge_warns; [|exact Hm].
    apply mem_keys. rewrite mem_lookup, Hk2. reflexivity.
Qed.
End Sources.
End MergeFacts.


(** ** Collisions between sources *)

(** C4. When two sources of the list, both directories, give the same
    manifest key, the entry left for that key once both are merged is the one
    of the later source and the duplicate-key warning for that key is written;
    with the two sources exchanged, the entry of the other one is left. *)
Theorem later_source_wins (h : host) (fs : filesystem)
        (pre mid : list string) (sA sB k : string) (a b : file_entry) :
  isdir fs (source_path sA) = true ->
  isdir fs (source_path sB) = true ->
  lookup k (fst (manifest_of h fs sA)) = Some a ->
  lookup k (fst (manifest_of h fs sB)) = Some b ->
  (lookup k (fst (process_sources h fs (pre ++ sA :: mid ++ [sB]))) = Some b
   /\ In (warn_duplicate k)
         (snd (process_sources h fs (pre ++ sA :: mid ++ [sB]))))
  /\ (lookup k (fst (process_sources h fs (pre ++ sB :: mid ++ [sA]))) = Some a
      /\ In (warn_duplicate k)
            (snd (process_sources h fs (pre ++ sB :: mid ++ [sA])))).
Proof.
  intros HdA HdB HkA HkB. unfold process_sources. split.
  - exact (MergeFacts.later_of_two h fs _ pre mid sA sB k a b HdA HdB HkA HkB).
  - exact (MergeFacts.later_of_two h fs _ pre mid sB sA k b a HdB HdA HkB HkA).
Qed.

Lemma later_source_wins_witness :
  (lookup "cards/a.json"
          (fst (process_sources Example.calm Example.fs
                                ["cards"; "cards=other"]))
   = Some (FileEntry (git_blob_sha1 (bytes_of "{}!")) 3)
   /\ In (warn_duplicate "cards/a.json")
         (snd (process_sources Example.calm Example.fs
                               ["cards"; "cards=other"])))
  /\ (lookup "cards/a.json"
             (fst (process_sources Example.calm Example.fs
                                   ["cards=other"; "cards"]))
      = Some (FileEntry (git_blob_sha1 (bytes_of "{}")) 2)
      /\ In (warn_duplicate "cards/a.json")
            (snd (process_sources Example.calm Example.fs
                                  ["cards=other"; "cards"]))).
Proof.
  apply (later_source_wins
           Example.calm Example.fs [] [] "cards" "cards=other" "cards/a.json"
           (FileEntry (git_blob_sha1 (bytes_of "{}")) 2)
           (FileEntry (git_blob_sha1 (bytes_of "{}!")) 3));
    vm_compute; reflexivity.
Defined.

(** ** The serializer *)

Module WriteFacts.
Import DictFacts.
Local Open Scope string_scope.

Lemma length_append (a b : string) :
  String.length (a ++ b) = String.length a + String.length b.
Proof. induction a as [|c a IH]; cbn; [reflexivity | rewrite IH; reflexivity]. Qed.

Lemma tmp_differs (out : string) : out ++ ".tmp" <> out.
Proof.
  intros H. apply (f_equal String.length) in H.
  rewrite length_append in H. cbn in H. lia.
Qed.

Lemma contains_tmp (c : ascii) (p : string) :
  contains c (p ++ ".tmp") = contains c p || contains c ".tmp".
Proof.
  induction p as [|x p IH]; [reflexivity|].
  cbn [append contains]. rewrite IH, orb_assoc. reflexivity.
Qed.

Lemma head_tmp (p : string) : Path.head (p ++ ".tmp") = Path.head p.
Proof.
  induction p as [|x p IH]; [reflexivity|].
  cbn [append Path.head]. rewrite contains_tmp, IH.
  change (contains Path.sep ".tmp") with false. rewrite orb_false_r.
  reflexivity.
Qed.

(** The temporary file is in the directory of the destination. *)
Lemma dirname_tmp (p : string) : Path.dirname (p ++ ".tmp") = Path.dirname p.
Proof. unfold Path.dirname. rewrite head_tmp. reflexivity. Qed.

Lemma head_bare (p : string) : contains Path.sep p = false -> Path.head p = "".
Proof.
  destruct p as [|x p]; [reflexivity|]. cbn [contains Path.head].
  intros H. apply orb_false_elim in H. destruct H as [Hx Hp].
  rewrite Hp, Hx. reflexivity.
Qed.

Lemma dirname_bare (p : string) :
  contains Path.sep p = false -> Path.dirname p = "".
Proof. intros H. unfold Path.dirname. rewrite (head_bare p H). reflexivity. Qed.

Lemma bytes_of_append (a b : string) :
  bytes_of (a ++ b) = (bytes_of a ++ bytes_of b)%list.
Proof.
  unfold bytes_of, list_byte_of_string.
  induction a as [|c a IH]; cbn; [reflexivity | rewrite IH; reflexivity].
Qed.

Lemma content_set_same fs p c : content (set_content fs p c) p = c.
Proof. cbn. rewrite String.eqb_refl. reflexivity. Qed.

Lemma content_set_other fs p q c :
  q <> p -> content (set_content fs p c) q = content fs q.
Proof. intros H. cbn. apply String.eqb_neq in H. rewrite H. reflexivity. Qed.

Lemma makedirs_content h fs d fs1 :
  makedirs h fs d = inr fs1 -> content fs1 = content fs.
Proof.
  unfold makedirs. destruct (tree fs d) as [[|children]|].
  - discriminate.
  - intros [= <-]. reflexivity.
  - destruct (mkdir_fails h d); [discriminate|]. intros [= <-]. reflexivity.
Qed.

Lemma makedirs_existing h fs d : isdir fs d = true -> makedirs h fs d = inr fs.
Proof.
  unfold isdir, makedirs. destruct (tree fs d) as [[|children]|];
    try discriminate. reflexivity.
Qed.

Lemma makedirs_raises h fs d e :
  makedirs h fs d = inl e -> e = MakedirsError d.
Proof.
  unfold makedirs. destruct (tree fs d) as [[|children]|].
  - intros [= <-]. reflexivity.
  - discriminate.
  - destruct (mkdir_fails h d); [|discriminate]. intros [= <-]. reflexivity.
Qed.

(** What [write_text] leaves behind, whether it fails or not. *)
Lemma write_text_cases h fs p text r fs2 :
  write_text h fs p text = (r, fs2) ->
  (forall q, q <> p -> content fs2 q = content fs q)
  /\ tree fs2 = tree fs
  /\ match r with
     | None => content fs2 p = inr (bytes_of text)
     | Some e => e = OpenError p \/ e = WriteError p
     end.
Proof.
  unfold write_text. destruct (open_fails h p).
  - intros [= <- <-]. repeat split. left. reflexivity.
  - destruct (write_stops h p) as [n|]; [|destruct (valid_utf8 text)];
      intros [= <- <-]; repeat split;
      try (intros q Hq; apply content_set_other; exact Hq).
    + right. reflexivity.
    + apply content_set_same.
    + right. reflexivity.
Qed.

Lemma replace_cases h fs src dst :
  src <> dst ->
  match replace h fs src dst with
  | inl e => e = ReplaceError src dst
  | inr fs' => content fs' dst = content fs src
               /\ content fs' src = inl no_such_file
  end.
Proof.
  intros Hne. unfold replace. destruct (replace_fails h src dst).
  - reflexivity.
  - split.
    + rewrite content_set_other by congruence. apply content_set_same.
    + apply content_set_same.
Qed.

(** The directory [write_output] makes sure of. *)
Lemma parent_of_cases (out : string) :
  parent_of out = Path.dirname out \/ parent_of out = ".".
Proof. unfold parent_of. destruct (Path.dirname out =? ""); tauto. Qed.

(** Every way [write_output] can end. *)
Lemma write_output_cases h fs out fm :
  let text := document (now_utc_isoformat h) fm in
  let tmp := out ++ ".tmp" in
  match write_output h fs out fm with
  | (inr line, fs') =>
      line = wrote_line out (length fm)
      /\ exists fs1 fs2,
          makedirs h fs (parent_of out) = inr fs1
          /\ write_text h fs1 tmp text = (None, fs2)
          /\ content fs2 tmp = inr (bytes_of text)
          /\ content fs2 out = content fs out
          /\ replace h fs2 tmp out = inr fs'
          /\ content fs' out = inr (bytes_of text)
  | (inl e, fs') =>
      content fs' out = content fs out
      /\ (makedirs h fs (parent_of out) = inl e
          \/ (exists fs1, makedirs h fs (parent_of out) = inr fs1)
             /\ (e = OpenError tmp \/ e = WriteError tmp
                 \/ e = ReplaceError tmp out))
  end.
Proof.
  intros text tmp. unfold write_output. fold text. fold (parent_of out).
  fold tmp.
  destruct (makedirs h fs (parent_of out)) as [e|fs1] eqn:Hmk.
  { split; [reflexivity | left; reflexivity]. }
  pose proof (makedirs_content _ _ _ _ Hmk) as Hc1.
  destruct (write_text h fs1 tmp text) as [[e|] fs2] eqn:Hw;
    destruct (write_text_cases _ _ _ _ _ _ Hw) as (Hother & _ & Hr).
  { split.
    - rewrite Hother, Hc1 by (symmetry; apply tmp_differs). reflexivity.
    - right. split; [eexists; reflexivity | tauto]. }
  assert (Hout : content fs2 out = content fs out).
  { rewrite Hother, Hc1 by (symmetry; apply tmp_differs). reflexivity. }
  pose proof (replace_cases h fs2 tmp out (tmp_differs out)) as Hrep.
  destruct (replace h fs2 tmp out) as [e|fs3] eqn:Hre.
  - split; [exact Hout|]. right. split; [eexists; reflexivity | tauto].
  - split; [reflexivity|]. exists fs1, fs2.
    destruct Hrep as [Hdst _]. rewrite Hdst, Hr. repeat split; assumption.
Qed.
End WriteFacts.

(** ** The document *)

Module DocFacts.
Import DictFacts.

Lemma ordered_snoc (l : list string) (k : string) :
  StronglySorted str_lt l -> Forall (fun a => str_lt a k) l ->
  StronglySorted str_lt (l ++ [k]).
Proof.
  induction 1 as [|x l Hs IH Hall]; intros Hk; cbn.
  - repeat constructor.
  - inversion Hk as [|? ? Hxk Hk']; subst. constructor.
    + apply IH. exact Hk'.
    + apply Forall_app. split; [exact Hall | repeat constructor; exact Hxk].
Qed.

Lemma set_in {V : Type} (k k' : string) (v v' : V) (d : dict V) :
  In (k', v') (dict_set k v d) -> (k', v') = (k, v) \/ In (k', v') d.
Proof.
  induction d as [|[k0 v0] d IH]; cbn [dict_set].
  - intros [H | []]. left. symmetry. exact H.
  - destruct (String.eqb_spec k0 k) as [->|Hne].
    + intros [H | H]; [left; symmetry; exact H | right; right; exact H].
    + intros [H | H]; [right; left; exact H|].
      destruct (IH H) as [H' | H']; [left; exact H' | right; right; exact H'].
Qed.

Section Fill.
Variable files_map : dict file_entry.

Lemma fill_keys files k :
  keys (fill files_map files k) = keys files
  \/ (dict_mem k files = false /\ keys (fill files_map files k) = keys files ++ [k]).
Proof.
  unfold fill. destruct (lookup k files_map); [|left; reflexivity].
  rewrite keys_set. destruct (dict_mem k files); [left | right]; tauto.
Qed.

Lemma fill_ordered ks : forall files,
  StronglySorted str_le ks ->
  StronglySorted str_lt (keys files) ->
  (forall a k, In a (keys files) -> In k ks -> str_le a k) ->
  StronglySorted str_lt (keys (fold_left (fill files_map) ks files)).
Proof.
  induction ks as [|k ks IH]; intros files Hks Hfiles Hbelow; [exact Hfiles|].
  inversion Hks as [|? ? Hks' Hk]; subst. cbn [fold_left].
  rewrite Forall_forall in Hk.
  destruct (fill_keys files k) as [Heq | [Hm Heq]]; apply IH; try exact Hks';
    rewrite Heq.
  - exact Hfiles.
  - intros a k' Ha Hk'. apply Hbelow; [exact Ha | right; exact Hk'].
  - apply ordered_snoc; [exact Hfiles|]. apply Forall_forall. intros a Ha.
    apply StrFacts.le_neq_lt; [apply Hbelow; [exact Ha | left; reflexivity]|].
    intros ->. apply mem_keys in Ha. congruence.
  - intros a k' Ha Hk'. apply in_app_or in Ha. destruct Ha as [Ha | [<- | []]].
    + apply Hbelow; [exact Ha | right; exact Hk'].
    + apply Hk. exact Hk'.
Qed.

Lemma fill_keeps_key ks : forall files k,
  dict_mem k files = true -> dict_mem k (fold_left (fill files_map) ks files) = true.
Proof.
  induction ks as [|k' ks IH]; intros files k H; [exact H|].
  cbn [fold_left]. apply IH. unfold fill.
  destruct (lookup k' files_map); [|exact H].
  rewrite mem_set, H. apply orb_true_r.
Qed.

Lemma fill_complete ks : forall files k,
  In k ks -> In k (keys files_map) ->
  dict_mem k (fold_left (fill files_map) ks files) = true.
Proof.
  induction ks as [|k' ks IH]; intros files k Hin Hk; [contradiction|].
  cbn [fold_left]. destruct Hin as [-> | Hin]; [|apply IH; assumption].
  apply fill_keeps_key. unfold fill. apply mem_keys in Hk.
  rewrite mem_lookup in Hk. destruct (lookup k files_map); [|discriminate].
  rewrite mem_set, String.eqb_refl. reflexivity.
Qed.

Lemma fill_entries ks : forall files k j,
  In (k, j) (fold_left (fill files_map) ks files) ->
  In (k, j) files
  \/ exists v, lookup k files_map = Some v /\ j = entry_json v.
Proof.
  induction ks as [|k' ks IH]; intros files k j H; [left; exact H|].
  cbn [fold_left] in H. destruct (IH _ _ _ H) as [Hin | Hex]; [|right; exact Hex].
  unfold fill in Hin. destruct (lookup k' files_map) as [v|] eqn:Hl;
    [|left; exact Hin].
  destruct (set_in _ _ _ _ _ Hin) as [[= -> ->] | Hold]; [right | left; exact Hold].
  exists v. split; [exact Hl | reflexivity].
Qed.
End Fill.

(** The [files] object has every key of the map once, in ascending order,
    each bound to the [sha] and [size] of its entry. *)
Lemma sorted_files_spec (files_map : dict file_entry) :
  StronglySorted str_lt (keys (sorted_files files_map))
  /\ (forall k, In k (keys files_map) -> In k (keys (sorted_files files_map)))
  /\ (forall k j, In (k, j) (sorted_files files_map) ->
                  exists v, lookup k files_map = Some v
                            /\ j = JObj [("sha", JStr (sha v));
                                         ("size", JInt (size v))]).
Proof.
  unfold sorted_files.
  split; [|split].
  - apply fill_ordered; [apply StrFacts.sorted_ordered | constructor|].
    intros a k [].
  - intros k Hk. apply mem_keys. apply fill_complete; [|exact Hk].
    eapply Permutation_in; [symmetry; apply StrFacts.sorted_perm | exact Hk].
  - intros k j H. destruct (fill_entries _ _ _ _ _ H) as [[] | Hex]. exact Hex.
Qed.
End DocFacts.

(** ** The text of the document *)

Module TextFacts.
Import DictFacts.
Local Open Scope string_scope.

Lemma text_append_assoc (a b c : string) : (a ++ b) ++ c = a ++ b ++ c.
Proof.
  induction a as [|x a IH]; [reflexivity|]. cbn. rewrite IH. reflexivity.
Qed.

Lemma set_map {A B : Type} (f : A -> B) (k : string) (v : A) (d : dict A) :
  dict_set k (f v) (map (fun kv => (fst kv, f (snd kv))) d)
  = map (fun kv => (fst kv, f (snd kv))) (dict_set k v d).
Proof.
  induction d as [|[k' v'] d IH]; [reflexivity|]. cbn [map dict_set fst snd].
  destruct (k' =? k); [reflexivity|]. rewrite IH. reflexivity.
Qed.

(** The [files] object is the sorted bindings, each made an object. *)
Lemma sorted_files_entries (files_map : dict file_entry) :
  sorted_files files_map
  = map (fun kv => (fst kv, entry_json (snd kv))) (sorted_entries files_map).
Proof.
  unfold sorted_files, sorted_entries.
  change (@nil (string * json))
    with (map (fun kv : string * file_entry => (fst kv, entry_json (snd kv))) []).
  generalize (@nil (string * file_entry)).
  induction (sorted (keys files_map)) as [|k ks IH]; intros acc; [reflexivity|].
  cbn [fold_left]. unfold fill at 2.
  destruct (lookup k files_map) as [v|]; [|apply IH].
  rewrite set_map. apply IH.
Qed.

Lemma sorted_entries_bound (files_map : dict file_entry) :
  files_map <> [] -> sorted_entries files_map <> [].
Proof.
  intros Hne Hnil. destruct files_map as [|[k v] rest]; [congruence|].
  destruct (DocFacts.sorted_files_spec ((k, v) :: rest)) as (_ & Hall & _).
  specialize (Hall k (or_introl eq_refl)).
  rewrite sorted_files_entries, Hnil in Hall. exact Hall.
Qed.

Ltac flatten :=
  unfold Text.lf, Text.in_quotes;
  repeat first [rewrite text_append_assoc | progress cbn [append]].

Lemma quotes_encode_sha : Json.encode_string "sha" = Text.in_quotes "sha".
Proof. reflexivity. Qed.
Lemma quotes_encode_size : Json.encode_string "size" = Text.in_quotes "size".
Proof. reflexivity. Qed.
Lemma quotes_encode_generated :
  Json.encode_string "generated" = Text.in_quotes "generated".
Proof. reflexivity. Qed.
Lemma quotes_encode_files : Json.encode_string "files" = Text.in_quotes "files".
Proof. reflexivity. Qed.

Lemma entry_encode (v : file_entry) :
  Json.encode 2 (entry_json v) = Text.entry_text v.
Proof.
  unfold entry_json, Text.entry_text.
  change (Json.encode 2 (JObj [("sha", JStr (sha v)); ("size", JInt (size v))]))
    with ("{" ++ Json.newline_indent 3
          ++ ((Json.encode_string "sha" ++ ": " ++ Json.encode_string (sha v))
              ++ ("," ++ Json.newline_indent 3)
              ++ (Json.encode_string "size" ++ ": " ++ str_of_nat (size v)))
          ++ Json.newline_indent 2 ++ "}").
  rewrite quotes_encode_sha, quotes_encode_size.
  change (Json.newline_indent 3) with (Text.lf ++ "      ").
  change (Json.newline_indent 2) with (Text.lf ++ "    ").
  generalize (Json.encode_string (sha v)) (str_of_nat (size v)). intros A B.
  flatten. reflexivity.
Qed.

Lemma members_encode (entries : list (string * file_entry)) :
  map (fun kv => Json.encode_string (fst kv) ++ ": " ++ Json.encode 2 (snd kv))
      (map (fun kv => (fst kv, entry_json (snd kv))) entries)
  = map Text.member_text entries.
Proof.
  rewrite map_map. apply map_ext. intros [k v]. cbn [fst snd].
  rewrite entry_encode. reflexivity.
Qed.

Lemma object_encode (level : nat) (m : string * json) (ms : list (string * json)) :
  Json.encode level (JObj (m :: ms))
  = "{" ++ Json.newline_indent (S level)
    ++ String.concat ("," ++ Json.newline_indent (S level))
         (map (fun kv => Json.encode_string (fst kv) ++ ": "
                         ++ Json.encode (S level) (snd kv)) (m :: ms))
    ++ Json.newline_indent level ++ "}".
Proof. reflexivity. Qed.

(** The document is the text of the layout. *)
Lemma document_text (generated : string) (files_map : dict file_entry) :
  sorted_entries files_map <> [] ->
  document generated files_map
  = Text.manifest_text generated (sorted_entries files_map).
Proof.
  intros Hne. unfold document, manifest_obj, Json.dumps, Text.manifest_text.
  rewrite sorted_files_entries.
  destruct (sorted_entries files_map) as [|e entries]; [congruence|].
  assert (Hfiles :
            Json.encode 1 (JObj (map (fun kv => (fst kv, entry_json (snd kv)))
                                     (e :: entries)))
            = "{" ++ Json.newline_indent 2
              ++ String.concat ("," ++ Json.newline_indent 2)
                   (map Text.member_text (e :: entries))
              ++ Json.newline_indent 1 ++ "}").
  { rewrite <- members_encode. reflexivity. }
  remember (String.concat ("," ++ Json.newline_indent 2)
              (map Text.member_text (e :: entries))) as M eqn:EM.
  change (String.concat ("," ++ Text.lf ++ "    ")
            (map Text.member_text (e :: entries))) with
    (String.concat ("," ++ Json.newline_indent 2)
       (map Text.member_text (e :: entries))).
  rewrite <- EM.
  remember (JObj (map (fun kv => (fst kv, entry_json (snd kv))) (e :: entries)))
    as files eqn:Efiles.
  rewrite object_encode. cbn [map fst snd String.concat]. rewrite Hfiles.
  change (Json.encode 1 (JStr generated)) with (Json.encode_string generated).
  rewrite quotes_encode_generated, quotes_encode_files.
  change (Json.newline_indent 2) with (Text.lf ++ "    ").
  change (Json.newline_indent 1) with (Text.lf ++ "  ").
  change (Json.newline_indent 0) with Text.lf.
  change Json.newline with Text.lf.
  generalize (Json.encode_string generated).
  intros G. flatten. reflexivity.
Qed.

(** The bindings written are those of the map, in ascending order of key. *)
Lemma sorted_entries_spec (files_map : dict file_entry) :
  StronglySorted str_lt (keys (sorted_entries files_map))
  /\ (forall k v, In (k, v) (sorted_entries files_map)
                  <-> lookup k files_map = Some v).
Proof.
  destruct (DocFacts.sorted_files_spec files_map) as (Hs & Hall & Hin).
  rewrite sorted_files_entries in Hs, Hall, Hin.
  assert (Hk : keys (map (fun kv : string * file_entry =>
                            (fst kv, entry_json (snd kv)))
                         (sorted_entries files_map))
               = keys (sorted_entries files_map)).
  { unfold keys. rewrite map_map. reflexivity. }
  rewrite Hk in Hs, Hall. split; [exact Hs|].
  assert (Hfrom : forall k v, In (k, v) (sorted_entries files_map) ->
                              lookup k files_map = Some v).
  { intros k v H.
    destruct (Hin k (entry_json v)) as (v' & Hl & Hj).
    - apply in_map_iff. exists (k, v). split; [reflexivity | exact H].
    - rewrite Hl. f_equal. destruct v, v'. cbn in Hj.
      injection Hj as <- <-. reflexivity. }
  intros k v. split; [apply Hfrom|]. intros Hl.
  assert (Hkey : In k (keys (sorted_entries files_map))).
  { apply Hall. apply mem_keys. rewrite mem_lookup, Hl. reflexivity. }
  unfold keys in Hkey. apply in_map_iff in Hkey.
  destruct Hkey as ([k' v'] & Hfst & Hin'). cbn in Hfst. subst k'.
  pose proof (Hfrom _ _ Hin') as Hl'. rewrite Hl in Hl'.
  injection Hl' as ->. exact Hin'.
Qed.

(** A string with nothing to escape is printed between two quotes. *)
Lemma plain_encode (s : string) :
  Text.plain s = true -> Json.encode_string s = Text.in_quotes s.
Proof.
  intros H. unfold Json.encode_string, Text.in_quotes, Json.quote. f_equal.
  induction s as [|c r IH]; [reflexivity|].
  cbn [Text.plain] in H. cbv zeta in H.
  apply andb_true_iff in H. destruct H as [H Hr].
  apply andb_true_iff in H. destruct H as [H H92].
  apply andb_true_iff in H. destruct H as [H32 H34].
  apply negb_true_iff in H34, H92. apply Nat.leb_le in H32.
  cbn [Json.escape]. unfold Json.escape_char. cbv zeta. rewrite H34, H92.
  assert (Hlow : forall m, (m < 32)%nat -> (nat_of_ascii c =? m)%nat = false).
  { intros m Hm. apply Nat.eqb_neq. lia. }
  rewrite !Hlow by lia.
  assert (Hlt : (nat_of_ascii c <? 32)%nat = false) by (apply Nat.ltb_ge; exact H32).
  rewrite Hlt. cbn [append]. f_equal. apply IH. exact Hr.
Qed.
End TextFacts.

(** ** The output document *)

(** C5. When [write_output] succeeds on a non-empty map, the file at the
    destination holds the JSON object with the members [generated] (the time
    stamp) and [files], followed by a newline; [files] has every key of the
    map, in strictly ascending order, each bound to an object with the [sha]
    and the [size] of its entry. Character by character, the file is the
    text of [Text.manifest_text] for the time stamp and the bindings of the
    map in ascending order of key: an opening brace, the member [generated]
    and the member [files] on lines indented by two spaces, one entry per
    key indented by four, its [sha] and [size] on lines indented by six, and
    a newline after the closing brace; a string with nothing to escape is
    printed as it is between two double quotes. *)
Theorem serialized_document_shape (h : host) (fs : filesystem) (out : string)
        (files_map : dict file_entry) (line : string) (fs' : filesystem) :
  files_map <> [] ->
  write_output h fs out files_map = (inr line, fs') ->
  exists files : dict json,
    content fs' out
    = inr (bytes_of
             (Json.dumps (JObj [("generated", JStr (now_utc_isoformat h));
                                ("files", JObj files)]))
           ++ [x0a])
    /\ StronglySorted str_lt (keys files)
    /\ (forall k, In k (keys files_map) -> In k (keys files))
    /\ (forall k j, In (k, j) files ->
                    exists v, lookup k files_map = Some v
                              /\ j = JObj [("sha", JStr (sha v));
                                           ("size", JInt (size v))])
    /\ content fs' out
       = inr (bytes_of (Text.manifest_text (now_utc_isoformat h)
                                           (sorted_entries files_map)))
    /\ files = map (fun kv => (fst kv, JObj [("sha", JStr (sha (snd kv)));
                                             ("size", JInt (size (snd kv)))]))
                   (sorted_entries files_map)
    /\ sorted_entries files_map <> []
    /\ StronglySorted str_lt (keys (sorted_entries files_map))
    /\ (forall k v, In (k, v) (sorted_entries files_map)
                    <-> lookup k files_map = Some v)
    /\ (forall s, Text.plain s = true
                  -> Json.encode_string s = Text.in_quotes s).
Proof.
  intros Hne Hw.
  pose proof (WriteFacts.write_output_cases h fs out files_map) as H.
  cbv zeta in H. rewrite Hw in H.
  destruct H as (_ & fs1 & fs2 & _ & _ & _ & _ & _ & Hout).
  pose proof (TextFacts.sorted_entries_bound files_map Hne) as Hbound.
  exists (sorted_files files_map).
  destruct (DocFacts.sorted_files_spec files_map) as (Hs & Hall & Hin).
  destruct (TextFacts.sorted_entries_spec files_map) as (Hs' & Hiff).
  repeat apply conj; try assumption.
  - rewrite Hout. unfold document. rewrite WriteFacts.bytes_of_append.
    reflexivity.
  - rewrite Hout, (TextFacts.document_text _ _ Hbound). reflexivity.
  - apply TextFacts.sorted_files_entries.
  - apply TextFacts.plain_encode.
Qed.

Lemma serialized_document_shape_witness :
  Scenario.quoted <> []
  /\ content (snd (write_output Example.calm Example.fs "kdm_manifest.json"
                                Scenario.quoted)) "kdm_manifest.json"
     = inr Scenario.quoted_document
  /\ sorted_entries Scenario.quoted
     = [(String "a" (String (ascii_of_nat 34) "b.json"), FileEntry "aa" 2);
        ("z.json", FileEntry "bb" 3)].
Proof.
  split; [discriminate|].
  destruct (serialized_document_shape
              Example.calm Example.fs "kdm_manifest.json" Scenario.quoted
              (wrote_line "kdm_manifest.json" 2)
              (snd (write_output Example.calm Example.fs "kdm_manifest.json"
                                 Scenario.quoted)))
    as (files & _ & _ & _ & _ & Htext & _);
    [discriminate | reflexivity |].
  split; [rewrite Htext|]; reflexivity.
Defined.

(** ** The atomic write *)

Module MainFacts.

(** [main] once there is a source and [combined] is not empty. *)
Lemma main_writes (h : host) (fs : filesystem) (args : arguments) :
  source args <> [] ->
  fst (process_sources h fs (source args)) <> [] ->
  main h fs args
  = match write_output h fs (output args)
                       (fst (process_sources h fs (source args))) with
    | (inl e, fs') =>
        Run (Raised e) (snd (process_sources h fs (source args))) [] fs'
    | (inr line, fs') =>
        match print_line h line with
        | Some e => Run (Raised e) (snd (process_sources h fs (source args))) [] fs'
        | None =>
            Run (Exit 0) (snd (process_sources h fs (source args))) [line] fs'
        end
    end.
Proof.
  unfold main. intros Hs Hc. destruct (source args) as [|s rest]; [congruence|].
  destruct (process_sources h fs (s :: rest)) as [combined err]. cbn [fst snd] in *.
  destruct combined; [congruence | reflexivity].
Qed.

Lemma main_no_source (h : host) (fs : filesystem) (args : arguments) :
  source args = [] -> main h fs args = Run (Exit 2) [error_no_source] [] fs.
Proof. unfold main. intros ->. reflexivity. Qed.

Lemma main_no_files (h : host) (fs : filesystem) (args : arguments) :
  source args <> [] ->
  fst (process_sources h fs (source args)) = [] ->
  main h fs args
  = Run (Exit 2) (snd (process_sources h fs (source args)) ++ [error_no_files])
        [] fs.
Proof.
  unfold main. intros Hs Hc. destruct (source args) as [|s rest]; [congruence|].
  destruct (process_sources h fs (s :: rest)) as [combined err]. cbn [fst snd] in *.
  subst combined. reflexivity.
Qed.
End MainFacts.

(** C8. [write_output] writes the document to the destination path with
    [.tmp] appended, a path in the directory of the destination, and only
    then replaces the destination by it. When making the directory, writing
    the temporary file or the replacement fails, [write_output] raises, the
    content of the destination is what it was before, and [main] ends with
    the exception. *)
Theorem write_is_atomic (h : host) (fs : filesystem) (out : string)
        (files_map : dict file_entry) :
  let text := document (now_utc_isoformat h) files_map in
  let tmp := (out ++ ".tmp")%string in
  Path.dirname tmp = Path.dirname out
  /\ match write_output h fs out files_map with
     | (inr line, fs') =>
         exists fs1 fs2,
           makedirs h fs (parent_of out) = inr fs1
           /\ write_text h fs1 tmp text = (None, fs2)
           /\ content fs2 tmp = inr (bytes_of text)
           /\ content fs2 out = content fs out
           /\ replace h fs2 tmp out = inr fs'
           /\ content fs' out = inr (bytes_of text)
     | (inl e, fs') =>
         content fs' out = content fs out
         /\ (e = MakedirsError (parent_of out) \/ e = OpenError tmp
             \/ e = WriteError tmp \/ e = ReplaceError tmp out)
     end
  /\ (forall e, makedirs h fs (parent_of out) = inl e ->
                write_output h fs out files_map = (inl e, fs))
  /\ (forall fs1 e fs2,
         makedirs h fs (parent_of out) = inr fs1 ->
         write_text h fs1 tmp text = (Some e, fs2) ->
         write_output h fs out files_map = (inl e, fs2))
  /\ (forall fs1 fs2 e,
         makedirs h fs (parent_of out) = inr fs1 ->
         write_text h fs1 tmp text = (None, fs2) ->
         replace h fs2 tmp out = inl e ->
         write_output h fs out files_map = (inl e, fs2))
  /\ (forall args e fs',
         source args <> [] -> output args = out ->
         fst (process_sources h fs (source args)) = files_map ->
         files_map <> [] ->
         write_output h fs out files_map = (inl e, fs') ->
         result (main h fs args) = Raised e
         /\ content (after (main h fs args)) out = content fs out).
Proof.
  intros text tmp.
  pose proof (WriteFacts.write_output_cases h fs out files_map) as Hcases.
  cbv zeta in Hcases. fold text tmp in Hcases.
  split; [apply WriteFacts.dirname_tmp|]. split; [|split; [|split; [|split]]].
  - destruct (write_output h fs out files_map) as [[e|line] fs'].
    + destruct Hcases as [Hsame Hwhy]. split; [exact Hsame|].
      destruct Hwhy as [Hmk | [_ Hwhy]]; [|tauto].
      left. apply (WriteFacts.makedirs_raises _ _ _ _ Hmk).
    + destruct Hcases as [_ Hex]. exact Hex.
  - intros e Hmk. unfold write_output. rewrite Hmk. reflexivity.
  - intros fs1 e fs2 Hmk Hw. unfold write_output. rewrite Hmk.
    fold text tmp. rewrite Hw. reflexivity.
  - intros fs1 fs2 e Hmk Hw Hre. unfold write_output. rewrite Hmk.
    fold text tmp. rewrite Hw, Hre. reflexivity.
  - intros args e fs' Hs Hout Hfm Hne Hw.
    rewrite MainFacts.main_writes by congruence.
    rewrite Hout, Hfm, Hw. cbn [result after]. split; [reflexivity|].
    rewrite Hw in Hcases. apply Hcases.
Qed.

Lemma write_is_atomic_witness :
  source (parse_args ["cards"] (Some "other/a.json") []) <> []
  /\ result (main Example.full_disk Example.fs
                  (parse_args ["cards"] (Some "other/a.json") []))
     = Raised (WriteError "other/a.json.tmp")
  /\ content (after (main Example.full_disk Example.fs
                          (parse_args ["cards"] (Some "other/a.json") [])))
             "other/a.json"
     = inr (bytes_of "{}!").
Proof.
  split; [discriminate|].
  pose proof (write_is_atomic Example.full_disk Example.fs "other/a.json"
                (fst (process_sources Example.full_disk Example.fs ["cards"])))
    as H.
  cbv zeta in H. destruct H as (_ & _ & _ & _ & _ & H).
  destruct (H (parse_args ["cards"] (Some "other/a.json") [])
              (WriteError "other/a.json.tmp")
              (snd (write_output Example.full_disk Example.fs "other/a.json"
                      (fst (process_sources Example.full_disk Example.fs
                                            ["cards"])))))
    as [Hres Hcontent].
  - discriminate.
  - reflexivity.
  - reflexivity.
  - vm_compute. discriminate.
  - vm_compute. reflexivity.
  - split; [exact Hres|]. rewrite Hcontent. reflexivity.
Defined.

(** C10. For a destination that is a bare file name, such as the default
    one, the directory [write_output] makes sure of is the current directory;
    as the current directory exists, [os.makedirs] with [exist_ok] returns
    without touching anything, and [write_output] never ends with the
    exception of the directory creation. *)
Theorem bare_output_skips_makedirs_failure
        (h : host) (fs : filesystem) (out : string)
        (files_map : dict file_entry) :
  contains "/" out = false ->
  isdir fs "." = true ->
  parent_of out = "."
  /\ makedirs h fs (parent_of out) = inr fs
  /\ (forall d, fst (write_output h fs out files_map) <> inl (MakedirsError d))
  /\ contains "/" default_output = false.
Proof.
  intros Hbare Hcwd.
  assert (Hparent : parent_of out = ".").
  { unfold parent_of. rewrite (WriteFacts.dirname_bare out Hbare). reflexivity. }
  assert (Hmk : makedirs h fs (parent_of out) = inr fs).
  { rewrite Hparent. apply WriteFacts.makedirs_existing. exact Hcwd. }
  split; [exact Hparent|]. split; [exact Hmk|]. split; [|reflexivity].
  intros d Hd.
  pose proof (WriteFacts.write_output_cases h fs out files_map) as Hcases.
  cbv zeta in Hcases.
  destruct (write_output h fs out files_map) as [[e|line] fs'];
    cbn [fst] in Hd; [|discriminate].
  injection Hd as ->. destruct Hcases as [_ [Hfail | [_ Hwhy]]].
  - rewrite Hmk in Hfail. discriminate.
  - destruct Hwhy as [H | [H | H]]; discriminate.
Qed.

Lemma bare_output_skips_makedirs_failure_witness :
  contains "/" default_output = false
  /\ isdir Example.fs "." = true
  /\ makedirs Example.full_disk Example.fs (parent_of default_output)
     = inr Example.fs
  /\ forall d,
      fst (write_output Example.full_disk Example.fs default_output
                        Example.manifest)
      <> inl (MakedirsError d).
Proof.
  split; [reflexivity|]. split; [reflexivity|].
  destruct (bare_output_skips_makedirs_failure
              Example.full_disk Example.fs default_output Example.manifest)
    as (_ & Hmk & Hnever & _); [reflexivity | reflexivity |].
  split; [exact Hmk | exact Hnever].
Defined.

(** ** Failures of the whole run *)

(** C6, as the specification states it, fails when no source is given: the
    run ends with code 2 and writes nothing, but the error it reports is the
    missing [--source], not the absence of files. *)
Lemma no_source_is_not_no_files :
  ~ (fst (process_sources Example.calm Example.fs
                          (source (parse_args [] None []))) = [] ->
     result (main Example.calm Example.fs (parse_args [] None [])) = Exit 2
     /\ In error_no_files
           (stderr (main Example.calm Example.fs (parse_args [] None [])))
     /\ after (main Example.calm Example.fs (parse_args [] None []))
        = Example.fs).
Proof.
  intros H. destruct (H eq_refl) as (_ & [Hin | []] & _).
  discriminate Hin.
Qed.

(** C6, amended. When [combined] is empty once the sources are processed,
    the run ends with code 2, prints nothing and leaves the file system as it
    was; the last line of [stderr] is the error of the missing [--source]
    when no source was given, and the error of no files found otherwise. *)
Theorem empty_result_fails (h : host) (fs : filesystem) (args : arguments) :
  fst (process_sources h fs (source args)) = [] ->
  result (main h fs args) = Exit 2
  /\ stdout (main h fs args) = []
  /\ after (main h fs args) = fs
  /\ (source args = [] -> stderr (main h fs args) = [error_no_source])
  /\ (source args <> [] ->
      stderr (main h fs args)
      = snd (process_sources h fs (source args)) ++ [error_no_files]).
Proof.
  intros Hempty. destruct (source args) as [|s rest] eqn:Hs.
  - rewrite (MainFacts.main_no_source h fs args Hs). cbn.
    repeat split; congruence.
  - rewrite (MainFacts.main_no_files h fs args) by (rewrite Hs; congruence).
    rewrite Hs. cbn. repeat split; congruence.
Qed.

Lemma empty_result_fails_witness :
  fst (process_sources Example.calm Example.fs
                       (source (parse_args ["nope"; "k = cards/a.json"] None [])))
  = []
  /\ result (main Example.calm Example.fs
                  (parse_args ["nope"; "k = cards/a.json"] None []))
     = Exit 2
  /\ after (main Example.calm Example.fs
                 (parse_args ["nope"; "k = cards/a.json"] None []))
     = Example.fs
  /\ stderr (main Example.calm Example.fs
                  (parse_args ["nope"; "k = cards/a.json"] None []))
     = [warn_missing "nope"; warn_missing "cards/a.json"; error_no_files].
Proof.
  destruct (empty_result_fails
              Example.calm Example.fs
              (parse_args ["nope"; "k = cards/a.json"] None []))
    as (Hres & _ & Hfs & _ & Herr); [reflexivity|].
  split; [reflexivity|]. split; [exact Hres|]. split; [exact Hfs|].
  rewrite Herr by discriminate. reflexivity.
Defined.

(** ** Problems of a source or of a file *)

(** C7. A source whose path is not a directory and a file that cannot be
    read are each reported on [stderr] and otherwise skipped: [combined] is
    the one of the sources that are directories, the manifest of a source is
    the one of its readable files, a key that only unreadable files would
    give is not bound, and [main] ends as it does on the valid sources
    alone. *)
Theorem problems_are_skipped (h : host) (fs : filesystem) :
  (forall sources,
      fst (process_sources h fs sources)
      = fst (process_sources h fs (valid_sources fs sources)))
  /\ (forall sources s,
         In s sources -> isdir fs (source_path s) = false ->
         In (warn_missing (source_path s)) (snd (process_sources h fs sources)))
  /\ (forall dir key,
         fst (build_manifest h fs dir key)
         = fst (fold_left (read_one fs key)
                          (filter (readable fs) (gather_files h fs dir None))
                          ([], [])))
  /\ (forall sources s full rel e,
         In s sources -> isdir fs (source_path s) = true ->
         In (full, rel) (gather_files h fs (source_path s) None) ->
         content fs full = inl e ->
         In (warn_read_failed full e) (snd (process_sources h fs sources)))
  /\ (forall dir key k,
         (forall full rel,
             In (full, rel) (gather_files h fs dir None) ->
             manifest_key key rel = k -> readable fs (full, rel) = false) ->
         dict_mem k (fst (build_manifest h fs dir key)) = false)
  /\ (forall args,
         let args' := Arguments (valid_sources fs (source args)) (output args)
                                (include_ext args) in
         result (main h fs args) = result (main h fs args')
         /\ stdout (main h fs args) = stdout (main h fs args')
         /\ after (main h fs args) = after (main h fs args')).
Proof.
  assert (Hskip : forall sources,
             fst (process_sources h fs sources)
             = fst (process_sources h fs (valid_sources fs sources)))
    by (intros; apply MergeFacts.visits_skip_invalid; reflexivity).
  split; [exact Hskip|]. split; [|split; [|split; [|split]]].
  - intros sources s. apply MergeFacts.visits_warn_missing.
  - intros dir key. apply BuildFacts.loop_skips_unreadable. reflexivity.
  - intros sources s full rel e Hin Hd Hfile Hc.
    apply (MergeFacts.visits_pass_warnings h fs sources _ s); try assumption.
    apply (BuildFacts.loop_warns fs _ _ _ full rel); assumption.
  - intros dir key k Hall. apply BuildFacts.loop_leaves_out; [exact Hall|].
    reflexivity.
  - intros args args'.
    assert (Hcase : source args = [] \/ source args <> [])
      by (destruct (source args); [left; reflexivity | right; discriminate]).
    destruct Hcase as [Hs | Hne].
    { rewrite (MainFacts.main_no_source h fs args Hs).
      rewrite (MainFacts.main_no_source h fs args')
        by (cbn [source args']; rewrite Hs; reflexivity).
      repeat split. }
    pose proof (Hskip (source args)) as Hsame.
    destruct (fst (process_sources h fs (source args))) as [|kv combined] eqn:Hc.
    { rewrite (MainFacts.main_no_files h fs args Hne Hc).
      assert (Hcase : source args' = [] \/ source args' <> [])
        by (destruct (source args'); [left; reflexivity | right; discriminate]).
      destruct Hcase as [Hv | Hv].
      - rewrite (MainFacts.main_no_source h fs args' Hv). repeat split.
      - rewrite (MainFacts.main_no_files h fs args' Hv)
          by (symmetry; exact Hsame).
        repeat split. }
    assert (Hv : source args' <> []).
    { cbn [source args']. intros Hnil. rewrite Hnil in Hsame. discriminate. }
    rewrite (MainFacts.main_writes h fs args)
      by (try exact Hne; rewrite Hc; discriminate).
    rewrite (MainFacts.main_writes h fs args')
      by (try exact Hv; cbn [source args']; rewrite <- Hsame; discriminate).
    cbn [source output args']. rewrite <- Hsame, Hc.
    destruct (write_output h fs (output args) (kv :: combined)) as [[e|line] fs'];
      [|destruct (print_line h line)]; repeat split.
Qed.

Lemma problems_are_skipped_witness :
  In "nope" ["nope"; "cards"]
  /\ isdir Example.fs (source_path "nope") = false
  /\ content Example.fs "cards/gone.json" = inl no_such_file
  /\ In (warn_missing "nope")
        (snd (process_sources Example.calm Example.fs ["nope"; "cards"]))
  /\ In (warn_read_failed "cards/gone.json" no_such_file)
        (snd (process_sources Example.calm Example.fs ["nope"; "cards"]))
  /\ dict_mem "cards/gone.json"
              (fst (build_manifest Example.calm Example.fs "cards" "cards"))
     = false
  /\ result (main Example.calm Example.fs
                  (parse_args ["nope"; "cards"] None []))
     = Exit 0.
Proof.
  destruct (problems_are_skipped Example.calm Example.fs)
    as (_ & Hmissing & _ & Hread & Hout & Hmain).
  split; [left; reflexivity|]. split; [reflexivity|]. split; [reflexivity|].
  split; [|split; [|split]].
  - apply (Hmissing ["nope"; "cards"] "nope");
      [left; reflexivity | reflexivity].
  - apply (Hread ["nope"; "cards"] "cards" "cards/gone.json" "gone.json"
                 no_such_file).
    + right. left. reflexivity.
    + reflexivity.
    + vm_compute. tauto.
    + reflexivity.
  - apply Hout. vm_compute.
    intros full rel [H | [H | [H | [H | []]]]] Hk; injection H as <- <-;
      try discriminate Hk; reflexivity.
  - destruct (Hmain (parse_args ["nope"; "cards"] None [])) as (Hres & _ & _).
    rewrite Hres. vm_compute. reflexivity.
Defined.

(** ** The scan does not depend on the order of enumeration *)

Module WalkFacts.

(** Induction on a tree, with the property known of every child. *)
Lemma entry_nested_ind (P : entry -> Prop) :
  P File ->
  (forall children, Forall (fun nc => P (snd nc)) children -> P (Dir children)) ->
  forall e, P e.
Proof.
  intros Hfile Hdir. fix IH 1. intros [|children]; [exact Hfile|].
  apply Hdir. revert children. fix IHchildren 1.
  intros [|[n c] children]; constructor; [apply IH | apply IHchildren].
Qed.

Lemma filter_perm {A : Type} (f : A -> bool) (l l' : list A) :
  Permutation l l' -> Permutation (filter f l) (filter f l').
Proof.
  induction 1 as [|x l l' _ IH|x y l|l l' l'' _ IH1 _ IH2]; cbn.
  - constructor.
  - destruct (f x); [constructor|]; exact IH.
  - destruct (f x), (f y); try reflexivity. apply perm_swap.
  - etransitivity; eassumption.
Qed.

Lemma flat_map_ext_in {A B : Type} (f g : A -> list B) (l : list A) :
  (forall a, In a l -> f a = g a) -> flat_map f l = flat_map g l.
Proof.
  induction l as [|a l IH]; intros H; [reflexivity|]. cbn.
  rewrite (H a (or_introl eq_refl)), IH; [reflexivity|].
  intros b Hb. apply H. right. exact Hb.
Qed.

(** The names a directory shows, once sorted, whatever the enumeration. *)
Lemma sorted_names (keep : string * bool -> bool) (l l' : list (string * bool)) :
  Permutation l l' ->
  sorted (map fst (filter keep l)) = sorted (map fst (filter keep l')).
Proof.
  intros Hp. apply StrFacts.sorted_of_perm. apply Permutation_map.
  apply filter_perm. exact Hp.
Qed.

Lemma lookup_scan {A B : Type} (f : A -> B) (d : string)
      (children : list (string * A)) :
  lookup d (map (fun nc => (fst nc, f (snd nc))) children)
  = option_map f (lookup d children).
Proof.
  induction children as [|[n c] children IH]; [reflexivity|].
  cbn [map fst snd]. rewrite !DictFacts.lookup_cons, IH.
  destruct (n =? d)%string; reflexivity.
Qed.

Section TwoHosts.
Variables h1 h2 : host.
Hypothesis same_cwd : getcwd h1 = getcwd h2.
Hypothesis order1 : forall p l, Permutation (scandir_order h1 p l) l.
Hypothesis order2 : forall p l, Permutation (scandir_order h2 p l) l.

Lemma walk_order_independent (e : entry) : forall root,
  walk h1 e root = walk h2 e root.
Proof.
  induction e as [|children IH] using entry_nested_ind; intros root;
    [reflexivity|].
  cbn [walk].
  set (shown := map (fun nc => (fst nc, is_dir (snd nc))) children).
  assert (Hp : Permutation (scandir_order h1 root shown)
                           (scandir_order h2 root shown))
    by (rewrite order1, order2; reflexivity).
  rewrite (sorted_names snd _ _ Hp).
  rewrite (sorted_names (fun nd => negb (snd nd)) _ _ Hp).
  f_equal. apply flat_map_ext_in. intros d _.
  rewrite !lookup_scan.
  destruct (lookup d children) as [c|] eqn:Hl; [|reflexivity]. cbn.
  apply DictFacts.lookup_in in Hl. rewrite Forall_forall in IH.
  apply (IH (d, c) Hl).
Qed.

Lemma gather_files_order_independent fs dir exts :
  gather_files h1 fs dir exts = gather_files h2 fs dir exts.
Proof.
  unfold gather_files. destruct (tree fs dir) as [e|]; [|reflexivity].
  rewrite walk_order_independent, same_cwd. reflexivity.
Qed.

Lemma build_manifest_order_independent fs dir key :
  build_manifest h1 fs dir key = build_manifest h2 fs dir key.
Proof.
  unfold build_manifest. rewrite gather_files_order_independent. reflexivity.
Qed.

Lemma visit_order_independent fs acc s :
  visit_source h1 fs acc s = visit_source h2 fs acc s.
Proof.
  unfold visit_source. destruct (parse_source s) as [key path].
  rewrite build_manifest_order_independent. reflexivity.
Qed.

Lemma process_order_independent fs sources :
  process_sources h1 fs sources = process_sources h2 fs sources.
Proof.
  unfold process_sources. generalize (@nil (string * file_entry), @nil string).
  induction sources as [|s sources IH]; intros acc; [reflexivity|].
  cbn [fold_left]. rewrite visit_order_independent. apply IH.
Qed.
End TwoHosts.
End WalkFacts.

(** ** Two runs on the same files *)

(** C9. Two runs on the same file system and in the same working directory,
    on hosts that may enumerate directories in different orders and whose
    clocks read differently, find
    the same entries (the same keys bound to the same digests and sizes, and
    the same warnings); the objects they serialize have the same [files]
    member and differ in [generated]. *)
Theorem rerun_gives_same_entries (h1 h2 : host) (fs : filesystem)
        (sources : list string) :
  getcwd h1 = getcwd h2 ->
  (forall p l, Permutation (scandir_order h1 p l) l) ->
  (forall p l, Permutation (scandir_order h2 p l) l) ->
  now_utc_isoformat h1 <> now_utc_isoformat h2 ->
  process_sources h1 fs sources = process_sources h2 fs sources
  /\ (forall dir exts, gather_files h1 fs dir exts = gather_files h2 fs dir exts)
  /\ (exists files,
         manifest_obj (now_utc_isoformat h1) (fst (process_sources h1 fs sources))
         = JObj [("generated", JStr (now_utc_isoformat h1));
                 ("files", JObj files)]
         /\ manifest_obj (now_utc_isoformat h2)
                         (fst (process_sources h2 fs sources))
            = JObj [("generated", JStr (now_utc_isoformat h2));
                    ("files", JObj files)])
  /\ manifest_obj (now_utc_isoformat h1) (fst (process_sources h1 fs sources))
     <> manifest_obj (now_utc_isoformat h2) (fst (process_sources h2 fs sources)).
Proof.
  intros Hcwd Ho1 Ho2 Hclock.
  pose proof (WalkFacts.process_order_independent h1 h2 Hcwd Ho1 Ho2 fs sources)
    as Hsame.
  split; [exact Hsame|]. split; [|split].
  - intros dir exts. apply WalkFacts.gather_files_order_independent; assumption.
  - exists (sorted_files (fst (process_sources h1 fs sources))).
    rewrite <- Hsame. split; reflexivity.
  - unfold manifest_obj. intros Heq. injection Heq as Hgen _.
    apply Hclock. exact Hgen.
Qed.

Lemma rerun_gives_same_entries_witness :
  getcwd Example.calm = getcwd Example.backwards
  /\ (forall p l, Permutation (scandir_order Example.backwards p l) l)
  /\ now_utc_isoformat Example.calm <> now_utc_isoformat Example.backwards
  /\ process_sources Example.calm Example.fs ["cards"; "other"]
     = process_sources Example.backwards Example.fs ["cards"; "other"]
  /\ walk Example.calm Example.cards "cards"
     = walk Example.backwards Example.cards "cards".
Proof.
  assert (Hback : forall p l, Permutation (scandir_order Example.backwards p l) l)
    by (intros p l; symmetry; apply Permutation_rev).
  split; [reflexivity|]. split; [exact Hback|]. split; [discriminate|].
  destruct (rerun_gives_same_entries
              Example.calm Example.backwards Example.fs ["cards"; "other"])
    as (Hsame & _ & _ & _).
  - reflexivity.
  - intros p l. apply Permutation_refl.
  - exact Hback.
  - discriminate.
  - split; [exact Hsame | reflexivity].
Defined.

(** ** The extension filter *)

Module FilterFacts.
Local Open Scope string_scope.

Lemma endswith_suffix (s e : string) :
  endswith s e = true -> exists p, s = p ++ e.
Proof.
  induction s as [|c s IH]; cbn [endswith]; intros H;
    apply orb_true_iff in H; destruct H as [H | H].
  - apply String.eqb_eq in H. exists "". exact H.
  - discriminate.
  - apply String.eqb_eq in H. exists "". exact H.
  - destruct (IH H) as [p ->]. exists (String c p). reflexivity.
Qed.

Lemma suffix_endswith (p e : string) : endswith (p ++ e) e = true.
Proof.
  induction p as [|c p IH]; cbn [append].
  - destruct e; cbn [endswith]; rewrite String.eqb_refl; reflexivity.
  - cbn [endswith]. rewrite IH. apply orb_true_r.
Qed.

Lemma lower_char_not_upper (c : ascii) : is_upper (lower_char c) = false.
Proof. destruct c as [[] [] [] [] [] [] [] []]; reflexivity. Qed.

Lemma lower_not_upper (s : string) : has_upper (lower s) = false.
Proof.
  induction s as [|c s IH]; [reflexivity|]. cbn [lower has_upper].
  rewrite lower_char_not_upper, IH. reflexivity.
Qed.

Lemma has_upper_append (a b : string) :
  has_upper (a ++ b) = has_upper a || has_upper b.
Proof.
  induction a as [|c a IH]; [reflexivity|]. cbn [append has_upper].
  rewrite IH, orb_assoc. reflexivity.
Qed.

(** No lowered name ends with an extension that has an uppercase letter. *)
Lemma upper_extension_never_matches (fn e : string) :
  has_upper e = true -> endswith (lower fn) e = false.
Proof.
  intros He. destruct (endswith (lower fn) e) eqn:Hends; [|reflexivity].
  destruct (endswith_suffix _ _ Hends) as [p Hp].
  pose proof (lower_not_upper fn) as Hlow.
  rewrite Hp, has_upper_append, He, orb_true_r in Hlow. discriminate.
Qed.

(** What the test of the loop decides. *)
Lemma skipped_false_iff (exts : list string) (fn : string) :
  skipped exts fn = false
  <-> exts = [] \/ exists e, In e exts /\ endswith (lower fn) e = true.
Proof.
  unfold skipped. split.
  - intros H. apply andb_false_iff in H. destruct H as [H | H].
    + destruct exts; [left; reflexivity | discriminate].
    + right. apply negb_false_iff, existsb_exists in H. exact H.
  - intros [-> | Hex]; [reflexivity|].
    apply andb_false_iff. right. apply negb_false_iff, existsb_exists.
    exact Hex.
Qed.
End FilterFacts.

(** C3. The file name [X.JSON] is kept under the extension [.json], but
    under the extension [.JSON] it is skipped, as is every other name: the
    name is lowered before the comparison and the extension is not, so an
    extension with an uppercase letter keeps no file at all. A name is kept
    exactly when the set is empty or the lowered name ends with one of the
    extensions as they are written. *)
Theorem uppercase_extension_keeps_no_file :
  (forall exts fn,
      skipped exts fn = false
      <-> exts = [] \/ exists e, In e exts /\ endswith (lower fn) e = true)
  /\ skipped [".json"] "X.JSON" = false
  /\ skipped [".JSON"] "X.JSON" = true
  /\ (forall fn, skipped [".JSON"] fn = true)
  /\ gather_files Example.calm Example.fs "cards" (Some [".json"])
     = [("cards/a.json", "a.json"); ("cards/b.json", "b.json");
        ("cards/gone.json", "gone.json"); ("cards/sub/X.JSON", "sub/X.JSON")]
  /\ gather_files Example.calm Example.fs "cards" (Some [".JSON"]) = [].
Proof.
  split; [exact FilterFacts.skipped_false_iff|].
  split; [reflexivity|]. split; [reflexivity|]. split; [|split; reflexivity].
  intros fn. unfold skipped. cbn [existsb].
  rewrite (FilterFacts.upper_extension_never_matches fn ".JSON" eq_refl).
  reflexivity.
Qed.

(** ** The option that is not used *)

(** C2. [main] gives the same run whatever [--include-ext] holds: the set it
    computes from the option never reaches [build_manifest], which scans with
    the default set. With [-e txt] on the example, [a.txt] passes the filter
    of the configured set, yet the manifest written has the [.json] files
    only. *)
Theorem include_ext_is_ignored :
  (forall h fs sources out exts exts',
      main h fs (Arguments sources out exts)
      = main h fs (Arguments sources out exts'))
  /\ (let args := parse_args ["cards"] None ["txt"] in
      let combined := fst (process_sources Example.calm Example.fs ["cards"]) in
      include_ext args = [".json"; "txt"]
      /\ skipped (map normalize_ext (include_ext args)) "a.txt" = false
      /\ result (main Example.calm Example.fs args) = Exit 0
      /\ content (after (main Example.calm Example.fs args)) "kdm_manifest.json"
         = inr (bytes_of (document (now_utc_isoformat Example.calm) combined))
      /\ keys combined = ["cards/a.json"; "cards/b.json"; "cards/sub/X.JSON"]).
Proof.
  split; [reflexivity|]. cbv zeta.
  split; [reflexivity|]. split; [reflexivity|].
  split; [vm_compute; reflexivity|]. split; vm_compute; reflexivity.
Qed.

(** ** The scenarios of the specification *)

(** The source [cards] with the single file [foo.json] of seven bytes gives
    one entry, keyed [cards/foo.json], with the digest of those bytes and size 7. *)
Example single_file_manifest :
  process_sources Example.calm Example.foo_fs ["cards"]
  = ([("cards/foo.json",
       FileEntry "daa5053ecf5f9a37b2de733d0751cc1ab53ac010" 7)], [])
  /\ manifest_obj "ts" (fst (process_sources Example.calm Example.foo_fs ["cards"]))
     = JObj [("generated", JStr "ts");
             ("files",
              JObj [("cards/foo.json",
                     JObj [("sha", JStr "daa5053ecf5f9a37b2de733d0751cc1ab53ac010");
                           ("size", JInt 7)])])].
Proof. vm_compute. split; reflexivity. Qed.

(** A directory with [b.json], [a.json] and [c.txt] gives [a.json] before
    [b.json] and leaves [c.txt] out. *)
Example sorted_scan :
  gather_files Example.calm Example.abc_fs "d" None
  = [("d/a.json", "a.json"); ("d/b.json", "b.json")].
Proof. reflexivity. Qed.

(** * Further properties of the code *)

(** ** The framing of the hashed stream *)

Module FrameFacts.

Lemma digits_no_nul (d : Decimal.uint) :
  ~ In x00 (bytes_of (NilEmpty.string_of_uint d)).
Proof.
  induction d as [|d IH|d IH|d IH|d IH|d IH|d IH|d IH|d IH|d IH|d IH];
    cbn; try tauto; intros [H | H]; try discriminate H; exact (IH H).
Qed.

Lemma header_prefix_no_nul (n : nat) :
  ~ In x00 (bytes_of "blob " ++ bytes_of (str_of_nat n)).
Proof.
  intros H. apply in_app_or in H. destruct H as [H | H].
  - cbn in H. repeat (destruct H as [H | H]; [discriminate H|]). exact H.
  - exact (digits_no_nul _ H).
Qed.

(** A byte sequence splits in one way at its first NUL byte. *)
Lemma split_at_nul (a1 : list byte) : forall a2 b1 b2,
  ~ In x00 a1 -> ~ In x00 a2 ->
  a1 ++ x00 :: b1 = a2 ++ x00 :: b2 -> a1 = a2 /\ b1 = b2.
Proof.
  induction a1 as [|x a1 IH]; intros [|y a2] b1 b2 H1 H2 Heq; cbn in Heq.
  - injection Heq as ->. split; reflexivity.
  - injection Heq as <- _. exfalso. apply H2. left. reflexivity.
  - injection Heq as -> _. exfalso. apply H1. left. reflexivity.
  - injection Heq as -> Heq.
    destruct (IH a2 b1 b2) as [-> ->]; try exact Heq.
    + intros H. apply H1. right. exact H.
    + intros H. apply H2. right. exact H.
    + split; reflexivity.
Qed.

Lemma git_blob_sha1_feeds (data : list byte) :
  git_blob_sha1 data
  = SHA1.hexdigest (SHA1.update (SHA1.update SHA1.new (blob_header data)) data).
Proof. reflexivity. Qed.
End FrameFacts.

(** X1. The bytes [git_blob_sha1] hashes, the header followed by the data,
    determine the data: two different buffers are never hashed from the same
    bytes, also when one is a prefix of the other. *)
Theorem distinct_buffers_distinct_streams (b1 b2 : list byte) :
  b1 <> b2 -> blob_header b1 ++ b1 <> blob_header b2 ++ b2.
Proof.
  intros Hne H. apply Hne. revert H.
  unfold blob_header. rewrite !app_assoc, <- !(app_assoc _ [x00]).
  intros H.
  apply (FrameFacts.split_at_nul _ _ _ _
           (FrameFacts.header_prefix_no_nul (length b1))
           (FrameFacts.header_prefix_no_nul (length b2))) in H.
  apply H.
Qed.

Lemma distinct_buffers_distinct_streams_witness :
  [x61] <> [x61; x62]
  /\ blob_header [x61] ++ [x61] <> blob_header [x61; x62] ++ [x61; x62].
Proof.
  split; [discriminate|].
  apply (distinct_buffers_distinct_streams [x61] [x61; x62]). discriminate.
Defined.

(** ** The scan *)

Module ScanFacts.
Local Open Scope string_scope.

Lemma lower_append (a b : string) : lower (a ++ b) = lower a ++ lower b.
Proof.
  induction a as [|c a IH]; [reflexivity|]. cbn. rewrite IH. reflexivity.
Qed.

Lemma endswith_append (a b e : string) :
  endswith b e = true -> endswith (a ++ b) e = true.
Proof.
  intros H. destruct (FilterFacts.endswith_suffix _ _ H) as [p ->].
  induction a as [|c a IH]; cbn [append].
  - apply FilterFacts.suffix_endswith.
  - cbn [endswith]. rewrite IH. apply orb_true_r.
Qed.

(** A lowered string is cut where the string is. *)
Lemma lower_split (s : string) : forall p e,
  lower s = p ++ e ->
  exists a b, s = a ++ b /\ lower a = p /\ lower b = e.
Proof.
  induction s as [|c s IH]; intros p e H.
  - destruct p as [|x p]; [|discriminate]. cbn in H. subst e.
    exists "", "". repeat split.
  - destruct p as [|x p].
    + exists "", (String c s). repeat split. exact H.
    + cbn in H. injection H as Hc Hr.
      destruct (IH _ _ Hr) as (a & b & -> & Ha & Hb).
      exists (String c a), b. cbn. rewrite Ha, Hc. repeat split. exact Hb.
Qed.

(** The joined path ends as the name does. *)
Lemma join_endswith (root fn e : string) :
  endswith (lower fn) e = true ->
  endswith (lower (Path.join root fn)) e = true.
Proof.
  intros H. unfold Path.join.
  destruct (startswith fn "/"); [exact H|].
  destruct ((root =? "") || endswith root "/");
    rewrite ?lower_append; repeat apply endswith_append; exact H.
Qed.

Lemma replace_removes (a b : ascii) (s : string) :
  a <> b -> contains a (replace_char a b s) = false.
Proof.
  intros Hne. induction s as [|c s IH]; [reflexivity|].
  cbn [replace_char contains]. rewrite IH, orb_false_r.
  destruct (Ascii.eqb_spec c a) as [->|Hc].
  - apply Ascii.eqb_neq. congruence.
  - apply Ascii.eqb_neq. exact Hc.
Qed.

(** What it takes for a pair to be gathered. *)
Lemma gather_files_in (h : host) (fs : filesystem) (dir : string)
      (exts : option (list string)) (full rel : string) :
  In (full, rel) (gather_files h fs dir exts)
  <-> exists e root dirs filenames fn,
      tree fs dir = Some e
      /\ In (root, dirs, filenames) (walk h e dir)
      /\ In fn filenames
      /\ skipped (match exts with None => default_exts | Some x => x end) fn
         = false
      /\ full = Path.join root fn
      /\ rel = replace_char backslash "/" (Path.relpath (getcwd h) full dir).
Proof.
  unfold gather_files. split.
  - destruct (tree fs dir) as [e|]; [|contradiction]. intros H.
    apply in_flat_map in H. destruct H as ([[root dirs] filenames] & Hstep & H).
    apply in_flat_map in H. destruct H as (fn & Hfn & H).
    destruct (skipped _ fn) eqn:Hskip; [contradiction|].
    destruct H as [H | []]. injection H as <- <-.
    exists e, root, dirs, filenames, fn. repeat split; assumption.
  - intros (e & root & dirs & filenames & fn & -> & Hstep & Hfn & Hskip & -> & ->).
    apply in_flat_map. exists (root, dirs, filenames). split; [exact Hstep|].
    apply in_flat_map. exists fn. split; [exact Hfn|].
    rewrite Hskip. left. reflexivity.
Qed.

End ScanFacts.

(** X2. Every path [gather_files] returns for the default set ends with
    [.json] in some mix of upper and lower case: lowered, it ends with
    [.json], and it is a stem followed by five bytes that are [.json] once
    lowered. *)
Theorem gathered_paths_end_with_extension (h : host) (fs : filesystem)
        (dir full rel : string) :
  In (full, rel) (gather_files h fs dir None) ->
  endswith (lower full) ".json" = true
  /\ exists stem ext, full = (stem ++ ext)%string /\ lower ext = ".json".
Proof.
  intros Hin. apply ScanFacts.gather_files_in in Hin.
  destruct Hin as (e & root & dirs & filenames & fn & _ & _ & _ & Hskip & -> & _).
  apply FilterFacts.skipped_false_iff in Hskip.
  destruct Hskip as [Hnil | (x & [<- | []] & Hends)]; [discriminate|].
  assert (Hfull : endswith (lower (Path.join root fn)) ".json" = true)
    by (apply ScanFacts.join_endswith; exact Hends).
  split; [exact Hfull|].
  destruct (FilterFacts.endswith_suffix _ _ Hfull) as [p Hp].
  destruct (ScanFacts.lower_split _ _ _ Hp) as (stem & ext & Hcut & _ & Hext).
  exists stem, ext. split; assumption.
Qed.

Lemma gathered_paths_end_with_extension_witness :
  In ("cards/sub/X.JSON", "sub/X.JSON")
     (gather_files Example.calm Example.fs "cards" None)
  /\ endswith (lower "cards/sub/X.JSON") ".json" = true
  /\ exists stem ext,
      "cards/sub/X.JSON" = (stem ++ ext)%string /\ lower ext = ".json".
Proof.
  assert (Hin : In ("cards/sub/X.JSON", "sub/X.JSON")
                   (gather_files Example.calm Example.fs "cards" None))
    by (vm_compute; tauto).
  split; [exact Hin|].
  exact (gathered_paths_end_with_extension
           Example.calm Example.fs "cards" "cards/sub/X.JSON" "sub/X.JSON" Hin).
Defined.

(** X3. Adding extensions to a non-empty set only adds files to what
    [gather_files] returns, and the empty set, which keeps every file,
    returns at least what any set does. *)
Theorem more_extensions_more_files (h : host) (fs : filesystem) (dir : string)
        (exts exts' : list string) :
  exts <> [] -> incl exts exts' ->
  incl (gather_files h fs dir (Some exts)) (gather_files h fs dir (Some exts'))
  /\ incl (gather_files h fs dir (Some exts)) (gather_files h fs dir (Some [])).
Proof.
  intros Hne Hincl.
  split; intros [full rel] Hin; apply ScanFacts.gather_files_in in Hin;
    apply ScanFacts.gather_files_in;
    destruct Hin as (e & root & dirs & filenames & fn & He & Hstep & Hfn
                     & Hskip & Hfull & Hrel);
    exists e, root, dirs, filenames, fn; repeat split; try assumption.
  - apply FilterFacts.skipped_false_iff in Hskip.
    apply FilterFacts.skipped_false_iff.
    destruct Hskip as [Hnil | (x & Hx & Hends)]; [contradiction|].
    right. exists x. split; [apply Hincl; exact Hx | exact Hends].
Qed.

Lemma more_extensions_more_files_witness :
  [".json"] <> [] /\ incl [".json"] [".txt"; ".json"]
  /\ incl (gather_files Example.calm Example.fs "cards" (Some [".json"]))
          (gather_files Example.calm Example.fs "cards" (Some [".txt"; ".json"]))
  /\ In ("cards/a.txt", "a.txt")
        (gather_files Example.calm Example.fs "cards" (Some [".txt"; ".json"])).
Proof.
  assert (Hincl : incl [".json"] [".txt"; ".json"])
    by (intros x [<- | []]; right; left; reflexivity).
  split; [discriminate|]. split; [exact Hincl|]. split.
  - apply (more_extensions_more_files
             Example.calm Example.fs "cards" [".json"] [".txt"; ".json"]);
      [discriminate | exact Hincl].
  - vm_compute. tauto.
Defined.


(** X5. No relative path [gather_files] returns has a backslash: each one
    is separated by forward slashes only, also for a file whose own name
    holds a backslash. *)
Theorem relative_paths_have_no_backslash (h : host) (fs : filesystem)
        (dir : string) (exts : option (list string)) (full rel : string) :
  In (full, rel) (gather_files h fs dir exts) ->
  contains backslash rel = false.
Proof.
  intros Hin. apply ScanFacts.gather_files_in in Hin.
  destruct Hin as (e & root & dirs & filenames & fn & _ & _ & _ & _ & _ & ->).
  apply ScanFacts.replace_removes. discriminate.
Qed.

Lemma relative_paths_have_no_backslash_witness :
  In (String "d" (String "/" (String "a" (String backslash "b.json"))),
      "a/b.json")
     (gather_files Example.calm Scenario.clash_fs "d" None)
  /\ contains backslash "a/b.json" = false.
Proof.
  assert (Hin : In (String "d" (String "/" (String "a"
                                 (String backslash "b.json"))), "a/b.json")
                   (gather_files Example.calm Scenario.clash_fs "d" None))
    by (vm_compute; tauto).
  split; [exact Hin|].
  exact (relative_paths_have_no_backslash _ _ _ _ _ _ Hin).
Defined.

(** ** The manifest of one source *)

Module EntryFacts.
Import DictFacts.

Section Loop.
Variables (fs : filesystem) (source_key : string).

Lemma loop_provenance files : forall acc k v,
  In (k, v) (fst (fold_left (read_one fs source_key) files acc)) ->
  In (k, v) (fst acc)
  \/ exists full rel data,
      In (full, rel) files /\ content fs full = inr data
      /\ k = manifest_key source_key rel /\ v = entry_of data.
Proof.
  induction files as [|[full rel] files IH]; intros acc k v H; [left; exact H|].
  cbn [fold_left] in H. destruct (IH _ _ _ H) as [Hacc | Hex].
  - destruct (content fs full) as [e|data] eqn:Hc.
    + rewrite (BuildFacts.read_one_unreadable _ _ _ _ _ _ Hc) in Hacc.
      left. exact Hacc.
    + rewrite (BuildFacts.read_one_readable _ _ _ _ _ _ Hc) in Hacc.
      cbn [fst] in Hacc.
      destruct (DocFacts.set_in _ _ _ _ _ Hacc) as [[= -> ->] | Hold];
        [right | left; exact Hold].
      exists full, rel, data. repeat split; [left; reflexivity | exact Hc].
  - right. destruct Hex as (full' & rel' & data & Hin & Hrest).
    exists full', rel', data. split; [right; exact Hin | exact Hrest].
Qed.

Lemma loop_lookup_untouched files k : forall acc,
  (forall full rel, In (full, rel) files ->
                    manifest_key source_key rel = k ->
                    readable fs (full, rel) = false) ->
  lookup k (fst (fold_left (read_one fs source_key) files acc))
  = lookup k (fst acc).
Proof.
  induction files as [|[full rel] files IH]; intros acc Hall; [reflexivity|].
  cbn [fold_left]. rewrite IH by (intros f r Hin; apply Hall; right; exact Hin).
  destruct (content fs full) as [e|data] eqn:Hc.
  - rewrite (BuildFacts.read_one_unreadable _ _ _ _ _ _ Hc). reflexivity.
  - rewrite (BuildFacts.read_one_readable _ _ _ _ _ _ Hc). cbn [fst].
    apply lookup_set_other. intros Hk.
    specialize (Hall full rel (or_introl eq_refl) Hk).
    unfold readable in Hall. cbn [fst] in Hall. rewrite Hc in Hall.
    discriminate.
Qed.

Lemma loop_last_wins before full rel data after : forall acc,
  content fs full = inr data ->
  (forall full' rel', In (full', rel') after ->
                      manifest_key source_key rel' = manifest_key source_key rel ->
                      readable fs (full', rel') = false) ->
  lookup (manifest_key source_key rel)
         (fst (fold_left (read_one fs source_key)
                         (before ++ (full, rel) :: after) acc))
  = Some (entry_of data).
Proof.
  intros acc Hc Hafter. rewrite fold_left_app. cbn [fold_left].
  rewrite loop_lookup_untouched by exact Hafter.
  rewrite (BuildFacts.read_one_readable _ _ _ _ _ _ Hc). cbn [fst].
  apply lookup_set_same.
Qed.

Lemma loop_warnings files : forall acc,
  snd (fold_left (read_one fs source_key) files acc)
  = snd acc ++ flat_map (read_warning fs) files.
Proof.
  induction files as [|[full rel] files IH]; intros acc;
    [symmetry; apply app_nil_r|].
  cbn [fold_left flat_map]. rewrite IH. unfold read_warning at 2. cbn [fst].
  destruct (content fs full) as [e|data] eqn:Hc.
  - rewrite (BuildFacts.read_one_unreadable _ _ _ _ _ _ Hc). cbn [snd].
    rewrite <- app_assoc. reflexivity.
  - rewrite (BuildFacts.read_one_readable _ _ _ _ _ _ Hc). reflexivity.
Qed.
End Loop.

Lemma manifest_key_shape h fs dir key k v :
  In (k, v) (fst (build_manifest h fs dir key)) ->
  exists rel, k = manifest_key key rel.
Proof.
  intros H. unfold build_manifest in H.
  destruct (loop_provenance _ _ _ _ _ _ H)
    as [[] | (full & rel & data & _ & _ & -> & _)].
  exists rel. reflexivity.
Qed.

Lemma loop_unfold_warnings h fs dir key :
  snd (build_manifest h fs dir key)
  = flat_map (read_warning fs) (gather_files h fs dir None).
Proof. unfold build_manifest. apply loop_warnings. Qed.

Lemma append_assoc (a b c : string) :
  ((a ++ b) ++ c = a ++ b ++ c)%string.
Proof.
  induction a as [|x a IH]; [reflexivity|]. cbn. rewrite IH. reflexivity.
Qed.

Lemma startswith_append (a b : string) : startswith (a ++ b)%string a = true.
Proof.
  unfold startswith. induction a as [|c a IH]; cbn.
  - destruct b; reflexivity.
  - destruct (ascii_dec c c) as [_|Hne]; [exact IH | contradiction].
Qed.
End EntryFacts.

(** X6. Every entry of the manifest [build_manifest] returns comes from a
    gathered file that could be read: its key is the key of that file's
    relative path, and its digest (40 characters) and its size are those of
    the same bytes. *)
Theorem entries_come_from_files (h : host) (fs : filesystem)
        (dir key k : string) (v : file_entry) :
  In (k, v) (fst (build_manifest h fs dir key)) ->
  exists full rel data,
    In (full, rel) (gather_files h fs dir None)
    /\ content fs full = inr data
    /\ k = manifest_key key rel
    /\ sha v = git_blob_sha1 data
    /\ size v = length data
    /\ String.length (sha v) = 40.
Proof.
  intros H. unfold build_manifest in H.
  destruct (EntryFacts.loop_provenance _ _ _ _ _ _ H)
    as [[] | (full & rel & data & Hin & Hc & -> & ->)].
  exists full, rel, data. repeat split; assumption.
Qed.

Lemma entries_come_from_files_witness :
  In ("cards/b.json", entry_of (bytes_of "[1]"))
     (fst (build_manifest Example.calm Example.fs "cards" "cards"))
  /\ exists full rel data,
      In (full, rel) (gather_files Example.calm Example.fs "cards" None)
      /\ content Example.fs full = inr data
      /\ "cards/b.json" = manifest_key "cards" rel
      /\ sha (entry_of (bytes_of "[1]")) = git_blob_sha1 data
      /\ size (entry_of (bytes_of "[1]")) = length data
      /\ String.length (sha (entry_of (bytes_of "[1]"))) = 40.
Proof.
  assert (Hin : In ("cards/b.json", entry_of (bytes_of "[1]"))
                   (fst (build_manifest Example.calm Example.fs "cards" "cards")))
    by (vm_compute; tauto).
  split; [exact Hin|].
  exact (entries_come_from_files _ _ _ _ _ _ Hin).
Defined.

(** X7. Among the gathered files that give the same key, the last one that
    can be read is the one whose digest and size the manifest holds: a file
    read later overwrites an earlier one without any warning. *)
Theorem last_readable_file_wins (h : host) (fs : filesystem)
        (dir key : string) (before after : list (string * string))
        (full rel : string) (data : list byte) :
  gather_files h fs dir None = before ++ (full, rel) :: after ->
  content fs full = inr data ->
  (forall full' rel', In (full', rel') after ->
                      manifest_key key rel' = manifest_key key rel ->
                      readable fs (full', rel') = false) ->
  lookup (manifest_key key rel) (fst (build_manifest h fs dir key))
  = Some (entry_of data).
Proof.
  intros Hfiles Hc Hafter. unfold build_manifest. rewrite Hfiles.
  apply EntryFacts.loop_last_wins; assumption.
Qed.

Lemma last_readable_file_wins_witness :
  gather_files Example.calm Scenario.clash_fs "d" None
  = [(String "d" (String "/" (String "a" (String backslash "b.json"))),
      "a/b.json")]
    ++ ("d/a/b.json", "a/b.json") :: []
  /\ content Scenario.clash_fs "d/a/b.json" = inr [x31]
  /\ lookup "d/a/b.json"
            (fst (build_manifest Example.calm Scenario.clash_fs "d" "d"))
     = Some (entry_of [x31])
  /\ snd (build_manifest Example.calm Scenario.clash_fs "d" "d") = [].
Proof.
  assert (Hfiles : gather_files Example.calm Scenario.clash_fs "d" None
                   = [(String "d" (String "/" (String "a"
                                     (String backslash "b.json"))), "a/b.json")]
                     ++ ("d/a/b.json", "a/b.json") :: [])
    by reflexivity.
  split; [exact Hfiles|]. split; [reflexivity|].
  pose proof (last_readable_file_wins
                Example.calm Scenario.clash_fs "d" "d" _ _ _ _ [x31]
                Hfiles eq_refl) as Hlast.
  split; [apply Hlast; intros full' rel' [] | reflexivity].
Defined.

(** X8. The lines [build_manifest] writes to [stderr] are exactly one
    warning for each gathered file that cannot be read, in the order of the
    scan, and nothing else. *)
Theorem read_warnings_are_exact (h : host) (fs : filesystem)
        (dir key : string) :
  snd (build_manifest h fs dir key)
  = flat_map (read_warning fs) (gather_files h fs dir None).
Proof. unfold build_manifest. apply EntryFacts.loop_warnings. Qed.

(** X9. With a source key that is not empty, every key of the manifest
    starts with the source key and a slash. *)
Theorem keys_are_namespaced (h : host) (fs : filesystem)
        (dir key k : string) :
  key <> "" ->
  In k (keys (fst (build_manifest h fs dir key))) ->
  startswith k (key ++ "/")%string = true.
Proof.
  intros Hkey Hin. unfold keys in Hin. apply in_map_iff in Hin.
  destruct Hin as ([k' v] & <- & Hin). cbn [fst].
  destruct (EntryFacts.manifest_key_shape h fs dir key k' v Hin) as (rel & ->).
  unfold manifest_key. apply String.eqb_neq in Hkey. rewrite Hkey.
  rewrite <- EntryFacts.append_assoc. apply EntryFacts.startswith_append.
Qed.

Lemma keys_are_namespaced_witness :
  "cards" <> ""
  /\ In "cards/sub/X.JSON"
        (keys (fst (build_manifest Example.calm Example.fs "cards" "cards")))
  /\ startswith "cards/sub/X.JSON" "cards/" = true.
Proof.
  assert (Hin : In "cards/sub/X.JSON"
                   (keys (fst (build_manifest Example.calm Example.fs
                                              "cards" "cards"))))
    by (vm_compute; tauto).
  split; [discriminate|]. split; [exact Hin|].
  apply (keys_are_namespaced Example.calm Example.fs "cards" "cards");
    [discriminate | exact Hin].
Defined.

(** ** What the serializer touches, and what it binds *)

Module OutputFacts.
Import DictFacts.

Section Fill.
Variable files_map : dict file_entry.

Lemma fill_other files k k' :
  k' <> k -> lookup k' (fill files_map files k) = lookup k' files.
Proof.
  intros Hne. unfold fill. destruct (lookup k files_map); [|reflexivity].
  apply lookup_set_other. congruence.
Qed.

Lemma fill_untouched ks : forall files k,
  ~ In k ks -> lookup k (fold_left (fill files_map) ks files) = lookup k files.
Proof.
  induction ks as [|k' ks IH]; intros files k Hk; [reflexivity|].
  cbn [fold_left]. rewrite IH by (intros H; apply Hk; right; exact H).
  apply fill_other. intros ->. apply Hk. left. reflexivity.
Qed.

Lemma fill_bound ks : forall files k,
  In k ks ->
  lookup k (fold_left (fill files_map) ks files)
  = match lookup k files_map with
    | Some v => Some (entry_json v)
    | None => lookup k files
    end.
Proof.
  induction ks as [|k' ks IH]; intros files k Hin; [contradiction|].
  cbn [fold_left].
  destruct (in_dec string_dec k ks) as [Hlater | Hlast].
  - rewrite (IH _ _ Hlater). destruct (lookup k files_map) eqn:Hl;
      [reflexivity|].
    destruct (string_dec k' k) as [->|Hne].
    + unfold fill. rewrite Hl. reflexivity.
    + apply fill_other. congruence.
  - destruct Hin as [-> | Hin]; [|contradiction].
    rewrite fill_untouched by exact Hlast. unfold fill.
    destruct (lookup k files_map); [apply lookup_set_same | reflexivity].
Qed.

Lemma fill_appends ks : forall files,
  NoDup ks ->
  (forall k, In k ks -> In k (keys files_map)) ->
  (forall k, In k ks -> ~ In k (keys files)) ->
  keys (fold_left (fill files_map) ks files) = keys files ++ ks.
Proof.
  induction ks as [|k ks IH]; intros files Hnd Hall Hfresh;
    [symmetry; apply app_nil_r|].
  inversion Hnd as [|? ? Hk Hnd']; subst. cbn [fold_left].
  assert (Hstep : keys (fill files_map files k) = keys files ++ [k]).
  { unfold fill. pose proof (Hall k (or_introl eq_refl)) as Hin.
    apply mem_keys in Hin. rewrite mem_lookup in Hin.
    destruct (lookup k files_map); [|discriminate].
    rewrite keys_set.
    destruct (dict_mem k files) eqn:Hm; [|reflexivity].
    apply mem_keys in Hm. destruct (Hfresh k (or_introl eq_refl) Hm). }
  rewrite IH; try assumption.
  - rewrite Hstep, <- app_assoc. reflexivity.
  - intros k' Hk'. apply Hall. right. exact Hk'.
  - intros k' Hk'. rewrite Hstep. intros Hin. apply in_app_or in Hin.
    destruct Hin as [Hin | [<- | []]].
    + exact (Hfresh k' (or_intror Hk') Hin).
    + exact (Hk Hk').
Qed.
End Fill.

Lemma fold_left_ext {A B : Type} (f g : A -> B -> A) (l : list B) :
  (forall a b, f a b = g a b) ->
  forall a, fold_left f l a = fold_left g l a.
Proof.
  intros H. induction l as [|b l IH]; intros a; [reflexivity|].
  cbn. rewrite H. apply IH.
Qed.

(** Two dictionaries with the same bindings bind every key alike. *)
Lemma lookup_perm {V : Type} (d d' : dict V) (k : string) :
  NoDup (keys d) -> Permutation d d' -> lookup k d = lookup k d'.
Proof.
  intros Hnd Hp.
  assert (Hnd' : NoDup (keys d'))
    by (eapply Permutation_NoDup; [apply Permutation_map; exact Hp | exact Hnd]).
  destruct (lookup k d) as [v|] eqn:Hl.
  - symmetry. apply in_lookup; [exact Hnd'|].
    eapply Permutation_in; [exact Hp | apply lookup_in; exact Hl].
  - symmetry. apply lookup_absent. intros Hin.
    assert (Hk : In k (keys d)).
    { eapply Permutation_in; [|exact Hin].
      apply Permutation_map. symmetry. exact Hp. }
    apply mem_keys in Hk. rewrite mem_lookup, Hl in Hk. discriminate.
Qed.
End OutputFacts.

(** X10. What becomes of the temporary file. When [write_output] gets to
    its [print], the temporary file is gone. When it raises, no file has
    been written to if the directory or the [open] failed, the temporary
    file is left behind with the first bytes of the document if the write
    failed, and with the whole document if the replacement failed: nothing
    removes it. *)
Theorem temporary_file_is_left_or_gone (h : host) (fs : filesystem)
        (out : string) (files_map : dict file_entry) :
  (forall line fs',
      write_output h fs out files_map = (inr line, fs') ->
      content fs' (out ++ ".tmp")%string = inl no_such_file)
  /\ (forall e fs',
         write_output h fs out files_map = (inl e, fs') ->
         (e = MakedirsError (parent_of out) /\ content fs' = content fs)
         \/ (e = OpenError (out ++ ".tmp")%string /\ content fs' = content fs)
         \/ (e = WriteError (out ++ ".tmp")%string
             /\ exists n,
                 content fs' (out ++ ".tmp")%string
                 = inr (firstn n (bytes_of (document (now_utc_isoformat h)
                                                     files_map))))
         \/ (e = ReplaceError (out ++ ".tmp")%string out
             /\ content fs' (out ++ ".tmp")%string
                = inr (bytes_of (document (now_utc_isoformat h) files_map)))).
Proof.
  unfold write_output.
  destruct (makedirs h fs (parent_of out)) as [e0|fs1] eqn:Hmk.
  { split; [intros line fs' [=]|]. intros e fs' [= <- <-]. left.
    split; [apply (WriteFacts.makedirs_raises _ _ _ _ Hmk) | reflexivity]. }
  pose proof (WriteFacts.makedirs_content _ _ _ _ Hmk) as Hc1.
  unfold write_text. destruct (open_fails h (out ++ ".tmp")).
  { split; [intros line fs' [=]|]. intros e fs' [= <- <-]. right. left.
    split; [reflexivity | exact Hc1]. }
  destruct (write_stops h (out ++ ".tmp")) as [n|].
  { split; [intros line fs' [=]|]. intros e fs' [= <- <-]. right. right. left.
    split; [reflexivity|]. exists n. apply WriteFacts.content_set_same. }
  destruct (valid_utf8 (document (now_utc_isoformat h) files_map)).
  2: { split; [intros line fs' [=]|]. intros e fs' [= <- <-]. right. right. left.
       split; [reflexivity|]. eexists. apply WriteFacts.content_set_same. }
  unfold replace. destruct (replace_fails h (out ++ ".tmp") out).
  - split; [intros line fs' [=]|]. intros e fs' [= <- <-]. right. right. right.
    split; [reflexivity | apply WriteFacts.content_set_same].
  - split; [|intros e fs' [=]]. intros line fs' [= _ <-].
    apply WriteFacts.content_set_same.
Qed.

Lemma temporary_file_is_left_or_gone_witness :
  content (snd (write_output Example.calm Example.fs "kdm_manifest.json"
                             Example.manifest)) "kdm_manifest.json.tmp"
  = inl no_such_file
  /\ fst (write_output Example.full_disk Example.fs "kdm_manifest.json"
                       Example.manifest)
     = inl (WriteError "kdm_manifest.json.tmp")
  /\ exists n,
      content (snd (write_output Example.full_disk Example.fs
                                 "kdm_manifest.json" Example.manifest))
              "kdm_manifest.json.tmp"
      = inr (firstn n (bytes_of (document (now_utc_isoformat Example.full_disk)
                                          Example.manifest))).
Proof.
  split; [|split; [reflexivity|]].
  - destruct (temporary_file_is_left_or_gone
                Example.calm Example.fs "kdm_manifest.json" Example.manifest)
      as [Hgone _].
    apply (Hgone (wrote_line "kdm_manifest.json" 2)). reflexivity.
  - destruct (temporary_file_is_left_or_gone
                Example.full_disk Example.fs "kdm_manifest.json"
                Example.manifest)
      as [_ Hleft].
    destruct (Hleft (WriteError "kdm_manifest.json.tmp")
                    (snd (write_output Example.full_disk Example.fs
                                       "kdm_manifest.json" Example.manifest))
                    eq_refl)
      as [[H _] | [[H _] | [[_ H] | [H _]]]];
      try discriminate H. exact H.
Defined.

(** X11. In the [files] object of the document a key is bound exactly when
    the map binds it, and then to the [sha] and [size] of the map's entry:
    looking a key up after the serializer's loop gives the entry that went
    in. *)
Theorem files_object_binds_the_map (files_map : dict file_entry) (k : string) :
  lookup k (sorted_files files_map)
  = option_map entry_json (lookup k files_map).
Proof.
  unfold sorted_files.
  destruct (in_dec string_dec k (sorted (keys files_map))) as [Hin | Hout].
  - rewrite (OutputFacts.fill_bound files_map _ _ _ Hin).
    destruct (lookup k files_map) as [v|] eqn:Hl; [reflexivity|].
    exfalso. assert (Hk : In k (keys files_map))
      by (eapply Permutation_in; [apply StrFacts.sorted_perm | exact Hin]).
    apply DictFacts.mem_keys in Hk. rewrite DictFacts.mem_lookup, Hl in Hk.
    discriminate.
  - rewrite (OutputFacts.fill_untouched files_map _ _ _ Hout).
    rewrite (DictFacts.lookup_absent k files_map); [reflexivity|].
    intros Hk. apply Hout.
    eapply Permutation_in; [symmetry; apply StrFacts.sorted_perm | exact Hk].
Qed.

(** X12. The document does not depend on the order in which the entries
    were put in the map: two dictionaries with the same bindings give the
    same [files] object, whose keys are the sorted keys of the map, and the
    same text. *)
Theorem document_ignores_insertion_order
        (generated : string) (d d' : dict file_entry) :
  NoDup (keys d) -> Permutation d d' ->
  sorted_files d = sorted_files d'
  /\ keys (sorted_files d) = sorted (keys d)
  /\ document generated d = document generated d'.
Proof.
  intros Hnd Hp.
  assert (Hfiles : sorted_files d = sorted_files d').
  { unfold sorted_files.
    rewrite (StrFacts.sorted_of_perm (keys d) (keys d'))
      by (apply Permutation_map; exact Hp).
    apply OutputFacts.fold_left_ext. intros files k. unfold fill.
    rewrite (OutputFacts.lookup_perm d d' k Hnd Hp). reflexivity. }
  split; [exact Hfiles|]. split.
  - unfold sorted_files. apply (OutputFacts.fill_appends d _ []).
    + eapply Permutation_NoDup; [symmetry; apply StrFacts.sorted_perm | exact Hnd].
    + intros k Hk.
      eapply Permutation_in; [apply StrFacts.sorted_perm | exact Hk].
    + intros k _ [].
  - unfold document, manifest_obj. rewrite Hfiles. reflexivity.
Qed.

Lemma document_ignores_insertion_order_witness :
  NoDup (keys Example.manifest)
  /\ Permutation Example.manifest (rev Example.manifest)
  /\ document "ts" Example.manifest = document "ts" (rev Example.manifest)
  /\ keys (sorted_files Example.manifest) = ["cards/a.json"; "cards/b.json"].
Proof.
  assert (Hnd : NoDup (keys Example.manifest)).
  { apply NoDup_cons; [intros [H | []]; discriminate H|].
    apply NoDup_cons; [intros [] | apply NoDup_nil]. }
  destruct (document_ignores_insertion_order
              "ts" Example.manifest (rev Example.manifest) Hnd
              (Permutation_rev Example.manifest))
    as (_ & Hkeys & Hdoc).
  split; [exact Hnd|]. split; [apply Permutation_rev|].
  split; [exact Hdoc|]. rewrite Hkeys. reflexivity.
Defined.

(** ** The run as a whole *)

Module RunFacts.
Import DictFacts.

Lemma set_same {V : Type} (k : string) (v : V) (d : dict V) :
  lookup k d = Some v -> dict_set k v d = d.
Proof.
  induction d as [|[k' v'] d IH]; [discriminate|].
  rewrite lookup_cons. cbn [dict_set].
  destruct (k' =? k) eqn:Hk.
  - intros [= ->]. reflexivity.
  - intros H. rewrite (IH H). reflexivity.
Qed.

Lemma set_fresh {V : Type} (k : string) (v : V) (d : dict V) :
  ~ In k (keys d) -> dict_set k v d = d ++ [(k, v)].
Proof.
  induction d as [|[k' v'] d IH]; intros Hk; [reflexivity|].
  cbn [dict_set]. destruct (String.eqb_spec k' k) as [->|Hne].
  - exfalso. apply Hk. left. reflexivity.
  - cbn. rewrite IH; [reflexivity|]. intros H. apply Hk. right. exact H.
Qed.

(** Merging a map whose bindings are all there already changes nothing. *)
Lemma merge_again (fm : dict file_entry) : forall acc : merged,
  (forall k v, In (k, v) fm -> lookup k (fst acc) = Some v) ->
  fst (fold_left merge_one fm acc) = fst acc.
Proof.
  induction fm as [|[k v] fm IH]; intros acc Hall; [reflexivity|].
  cbn [fold_left].
  assert (Hstep : fst (merge_one acc (k, v)) = fst acc).
  { rewrite MergeFacts.merge_one_fst. cbn [fst snd].
    apply set_same. apply Hall. left. reflexivity. }
  rewrite IH; [exact Hstep|].
  intros k' v' Hin. rewrite Hstep. apply Hall. right. exact Hin.
Qed.

(** Merging a map whose keys are all new appends it and warns of nothing. *)
Lemma merge_fresh (fm : dict file_entry) : forall (d : dict file_entry) w,
  NoDup (keys d ++ keys fm) ->
  fold_left merge_one fm (d, w) = (d ++ fm, w).
Proof.
  induction fm as [|[k v] fm IH]; intros d w Hnd.
  - cbn. rewrite app_nil_r. reflexivity.
  - cbn [keys map fst] in Hnd. pose proof (NoDup_remove_2 _ _ _ Hnd) as Hk.
    assert (Hfresh : ~ In k (keys d))
      by (intros H; apply Hk; apply in_or_app; left; exact H).
    cbn [fold_left merge_one fst snd].
    assert (Hm : dict_mem k d = false).
    { destruct (dict_mem k d) eqn:Hm; [|reflexivity].
      apply mem_keys in Hm. contradiction. }
    rewrite Hm, (set_fresh k v d Hfresh), IH.
    + rewrite <- app_assoc. reflexivity.
    + unfold keys. rewrite map_app. cbn [map fst]. rewrite <- app_assoc.
      exact Hnd.
Qed.

Lemma merge_mem (fm : dict file_entry) : forall (acc : merged) k,
  dict_mem k (fst (fold_left merge_one fm acc))
  = dict_mem k (fst acc) || dict_mem k fm.
Proof.
  induction fm as [|[k' v'] fm IH]; intros acc k.
  - cbn. rewrite orb_false_r. reflexivity.
  - cbn [fold_left]. rewrite IH, MergeFacts.merge_one_fst, mem_set, mem_cons.
    cbn [fst]. destruct (k' =? k), (dict_mem k (fst acc)); reflexivity.
Qed.

Section Sources.
Variables (h : host) (fs : filesystem).

Lemma visits_mem sources : forall (acc : merged) k,
  dict_mem k (fst (fold_left (visit_source h fs) sources acc)) = true
  <-> dict_mem k (fst acc) = true
      \/ exists s, In s sources /\ isdir fs (source_path s) = true
                   /\ dict_mem k (fst (manifest_of h fs s)) = true.
Proof.
  induction sources as [|s sources IH]; intros acc k; cbn [fold_left].
  - split; [tauto | intros [H | (s & [] & _)]; exact H].
  - rewrite IH. destruct (isdir fs (source_path s)) eqn:Hd.
    + rewrite MergeFacts.visit_valid by exact Hd. rewrite merge_mem.
      cbn [fst]. rewrite orb_true_iff. split.
      * intros [[H | H] | (s' & Hin & Hrest)]; [left; exact H | right | right].
        -- exists s. repeat split; [left; reflexivity | exact Hd | exact H].
        -- exists s'. split; [right; exact Hin | exact Hrest].
      * intros [H | (s' & [<- | Hin] & Hd' & Hm)];
          [left; left; exact H | left; right; exact Hm | right].
        exists s'. repeat split; assumption.
    + rewrite MergeFacts.visit_invalid by exact Hd. cbn [fst]. split.
      * intros [H | (s' & Hin & Hrest)]; [left; exact H | right].
        exists s'. split; [right; exact Hin | exact Hrest].
      * intros [H | (s' & [<- | Hin] & Hd' & Hm)];
          [left; exact H | congruence | right].
        exists s'. repeat split; assumption.
Qed.
End Sources.

Lemma split_once_first (c : ascii) (k p : string) :
  contains c k = false ->
  contains c (k ++ String c p) = true
  /\ split_once c (k ++ String c p) = (k, p).
Proof.
  induction k as [|x k IH]; cbn [append contains split_once].
  - intros _. rewrite Ascii.eqb_refl. split; reflexivity.
  - intros H. apply orb_false_elim in H. destruct H as [Hx Hk].
    destruct (IH Hk) as [Hc Hs]. rewrite Hx, Hc, Hs. split; reflexivity.
Qed.

Lemma rev_append_app (s acc : string) :
  rev_append s acc = (reversed s ++ acc)%string.
Proof.
  unfold reversed. revert acc.
  induction s as [|c s IH]; intros acc; [reflexivity|].
  cbn [rev_append]. rewrite IH, (IH (String c "")), EntryFacts.append_assoc.
  reflexivity.
Qed.

Lemma reversed_app (a b : string) :
  reversed (a ++ b) = (reversed b ++ reversed a)%string.
Proof.
  induction a as [|c a IH].
  - cbn [append]. unfold reversed at 3. cbn [rev_append].
    induction (reversed b) as [|x r IHr]; [reflexivity|].
    cbn [append]. rewrite <- IHr. reflexivity.
  - cbn [append]. unfold reversed at 1 3. cbn [rev_append].
    rewrite !rev_append_app, IH, EntryFacts.append_assoc. reflexivity.
Qed.

Lemma reversed_twice (s : string) : reversed (reversed s) = s.
Proof.
  induction s as [|c s IH]; [reflexivity|].
  unfold reversed at 2. cbn [rev_append].
  rewrite rev_append_app, reversed_app, IH. reflexivity.
Qed.

(** [strip_front] removes a prefix, and what it leaves does not start with
    a white-space byte. *)
Lemma strip_front_cases (backwards : bool) (n : nat) : forall s,
  String.length s <= n ->
  (exists p, s = (p ++ strip_front backwards s)%string)
  /\ (forall c r, strip_front backwards s = String c r -> is_space c = false).
Proof.
  induction n as [|n IH]; intros s Hn.
  { destruct s; [|cbn in Hn; lia].
    split; [exists ""; reflexivity | intros c r H; discriminate H]. }
  destruct s as [|c r];
    [split; [exists ""; reflexivity | intros c r H; discriminate H]|].
  cbn [String.length] in Hn. cbn [strip_front].
  destruct (is_space c) eqn:Hc.
  { destruct (IH r ltac:(lia)) as [[p Hp] Hhead].
    split; [|exact Hhead]. exists (String c p). cbn [append].
    rewrite <- Hp. reflexivity. }
  destruct r as [|c2 r2];
    [split; [exists ""; reflexivity | intros c' r' [= <- _]; exact Hc]|].
  cbn [String.length] in Hn.
  destruct (if backwards then is_space2 c2 c else is_space2 c c2).
  { destruct (IH r2 ltac:(lia)) as [[p Hp] Hhead].
    split; [|exact Hhead]. exists (String c (String c2 p)). cbn [append].
    rewrite <- Hp. reflexivity. }
  destruct r2 as [|c3 r3];
    [split; [exists ""; reflexivity | intros c' r' [= <- _]; exact Hc]|].
  cbn [String.length] in Hn.
  destruct (if backwards then is_space3 c3 c2 c else is_space3 c c2 c3).
  { destruct (IH r3 ltac:(lia)) as [[p Hp] Hhead].
    split; [|exact Hhead]. exists (String c (String c2 (String c3 p))).
    cbn [append]. rewrite <- Hp. reflexivity. }
  split; [exists ""; reflexivity | intros c' r' [= <- _]; exact Hc].
Qed.

(** A stripped string neither starts nor ends with a white-space byte. *)
Lemma strip_ends (s : string) (c : ascii) (r : string) :
  strip s = String c r \/ reversed (strip s) = String c r ->
  is_space c = false.
Proof.
  unfold strip, rstrip, lstrip.
  destruct (strip_front_cases true _ (reversed (strip_front false s))
                              (Nat.le_refl _)) as [[p Hp] Hlast].
  destruct (strip_front_cases false _ s (Nat.le_refl _)) as [_ Hfirst].
  intros [H | H].
  - apply (f_equal reversed) in Hp.
    rewrite reversed_twice, reversed_app, H in Hp. cbn [append] in Hp.
    exact (Hfirst _ _ Hp).
  - rewrite reversed_twice in H. exact (Hlast _ _ H).
Qed.

Lemma basename_no_sep (p : string) :
  contains Path.sep (Path.basename p) = false.
Proof.
  induction p as [|c p IH]; [reflexivity|]. cbn [Path.basename].
  destruct (contains Path.sep p) eqn:Hp; [exact IH|].
  destruct (Ascii.eqb c Path.sep) eqn:Hc; [exact Hp|].
  cbn [contains]. rewrite Hc, Hp. reflexivity.
Qed.
End RunFacts.



(** X14. Giving the same directory source twice in a row leaves [combined]
    as giving it once does, and writes the duplicate-key warning for every
    key of that source. *)
Theorem repeated_source_changes_nothing (h : host) (fs : filesystem)
        (pre : list string) (s : string) :
  isdir fs (source_path s) = true ->
  fst (process_sources h fs (pre ++ [s; s]))
  = fst (process_sources h fs (pre ++ [s]))
  /\ (forall k, In k (keys (fst (manifest_of h fs s))) ->
                In (warn_duplicate k)
                   (snd (process_sources h fs (pre ++ [s; s])))).
Proof.
  intros Hd. unfold process_sources.
  change (pre ++ [s; s]) with (pre ++ [s] ++ [s]).
  rewrite app_assoc, (fold_left_app _ (pre ++ [s]) [s]). cbn [fold_left].
  set (once := fold_left (visit_source h fs) (pre ++ [s]) ([], [])).
  assert (Honce : forall k v, In (k, v) (fst (manifest_of h fs s)) ->
                              lookup k (fst once) = Some v).
  { intros k v Hin. unfold once. rewrite fold_left_app. cbn [fold_left].
    rewrite MergeFacts.visit_valid by exact Hd.
    apply MergeFacts.merge_binds; [apply BuildFacts.build_manifest_nodup|].
    apply DictFacts.in_lookup; [apply BuildFacts.build_manifest_nodup | exact Hin]. }
  rewrite (MergeFacts.visit_valid h fs once s Hd). split.
  - rewrite (MergeFacts.merge_fst_indep _ _ once) by reflexivity.
    apply RunFacts.merge_again. exact Honce.
  - intros k Hk. apply MergeFacts.merge_warns; [exact Hk|]. cbn [fst].
    unfold keys in Hk. apply in_map_iff in Hk.
    destruct Hk as ([k' v] & <- & Hin). cbn [fst].
    rewrite DictFacts.mem_lookup, (Honce k' v Hin). reflexivity.
Qed.

Lemma repeated_source_changes_nothing_witness :
  isdir Example.fs (source_path "cards") = true
  /\ fst (process_sources Example.calm Example.fs ["other"; "cards"; "cards"])
     = fst (process_sources Example.calm Example.fs ["other"; "cards"])
  /\ In (warn_duplicate "cards/b.json")
        (snd (process_sources Example.calm Example.fs
                              ["other"; "cards"; "cards"])).
Proof.
  destruct (repeated_source_changes_nothing
              Example.calm Example.fs ["other"] "cards" eq_refl)
    as [Hsame Hwarn].
  split; [reflexivity|]. split; [exact Hsame|].
  apply Hwarn. vm_compute. tauto.
Defined.

(** X15. With a single source that is a directory, [combined] is the
    manifest of that source, entry for entry and in the same order, and
    [stderr] holds the read warnings of that source and nothing else: no
    duplicate-key warning is written, also when two files of the source
    gave the same key. *)
Theorem single_source_is_its_manifest (h : host) (fs : filesystem)
        (s : string) :
  isdir fs (source_path s) = true ->
  process_sources h fs [s] = manifest_of h fs s
  /\ forall k, ~ In (warn_duplicate k) (snd (process_sources h fs [s])).
Proof.
  intros Hd.
  assert (Heq : process_sources h fs [s] = manifest_of h fs s).
  { unfold process_sources. cbn [fold_left].
    rewrite MergeFacts.visit_valid by exact Hd. cbn [fst snd app].
    rewrite RunFacts.merge_fresh
      by (cbn [keys map app]; apply BuildFacts.build_manifest_nodup).
    cbn [app]. destruct (manifest_of h fs s). reflexivity. }
  split; [exact Heq|]. intros k Hin. rewrite Heq in Hin.
  unfold manifest_of in Hin.
  rewrite EntryFacts.loop_unfold_warnings in Hin.
  apply in_flat_map in Hin. destruct Hin as ([full rel] & _ & Hin).
  unfold read_warning in Hin. cbn [fst] in Hin.
  destruct (content fs full) as [e|data]; [|contradiction].
  destruct Hin as [Hin | []]. unfold warn_read_failed, warn_duplicate in Hin.
  cbn in Hin. discriminate Hin.
Qed.

Lemma single_source_is_its_manifest_witness :
  isdir Scenario.clash_fs (source_path "d") = true
  /\ process_sources Example.calm Scenario.clash_fs ["d"]
     = ([("d/a/b.json", entry_of [x31])], []).
Proof.
  split; [reflexivity|].
  destruct (single_source_is_its_manifest
              Example.calm Scenario.clash_fs "d" eq_refl) as [Heq _].
  rewrite Heq. vm_compute. reflexivity.
Defined.

(** X16. A key is in [combined] exactly when the manifest of one of the
    sources that are directories has it: the merge loses no key and invents
    none. *)
Theorem combined_keys_are_the_union (h : host) (fs : filesystem)
        (sources : list string) (k : string) :
  dict_mem k (fst (process_sources h fs sources)) = true
  <-> exists s, In s sources /\ isdir fs (source_path s) = true
                /\ dict_mem k (fst (manifest_of h fs s)) = true.
Proof.
  unfold process_sources. rewrite RunFacts.visits_mem. cbn [fst dict_mem existsb].
  split; [intros [H | H]; [discriminate H | exact H] | intros H; right; exact H].
Qed.

Lemma combined_keys_are_the_union_witness :
  (exists s, In s ["nope"; "other"; "cards"]
             /\ isdir Example.fs (source_path s) = true
             /\ dict_mem "cards/b.json"
                         (fst (manifest_of Example.calm Example.fs s)) = true)
  /\ dict_mem "cards/b.json"
              (fst (process_sources Example.calm Example.fs
                                    ["nope"; "other"; "cards"])) = true.
Proof.
  assert (Hex : exists s, In s ["nope"; "other"; "cards"]
                          /\ isdir Example.fs (source_path s) = true
                          /\ dict_mem "cards/b.json"
                                      (fst (manifest_of Example.calm Example.fs s))
                             = true).
  { exists "cards". split; [right; right; left; reflexivity|].
    split; [reflexivity | vm_compute; reflexivity]. }
  split; [exact Hex|].
  apply (combined_keys_are_the_union
           Example.calm Example.fs ["nope"; "other"; "cards"] "cards/b.json").
  exact Hex.
Defined.

(** X17. A source [key=path] is cut at its first equals sign, so the path
    may hold further ones, and both parts are stripped; what [strip] leaves
    neither starts nor ends with a blank, a tab, a newline or another
    white-space byte. A source without an equals sign is its own path, and
    its key, the last segment of the normalized path, has no slash. *)
Theorem source_forms (k p s : string) :
  (contains "=" k = false ->
   parse_source (k ++ String "=" p) = (strip k, strip p))
  /\ (contains "=" s = false ->
      source_path s = s
      /\ source_key s = Path.basename (Path.normpath s)
      /\ contains "/" (source_key s) = false)
  /\ (forall c r,
         strip s = String c r \/ reversed (strip s) = String c r ->
         is_space c = false).
Proof.
  split; [|split].
  - intros Hk. unfold parse_source.
    destruct (RunFacts.split_once_first "=" k p Hk) as [-> ->]. reflexivity.
  - intros Hs. unfold source_path, source_key, parse_source. rewrite Hs.
    cbn [fst snd]. repeat split. apply RunFacts.basename_no_sep.
  - apply RunFacts.strip_ends.
Qed.

Lemma source_forms_witness :
  contains "=" " cards " = false
  /\ parse_source " cards = run/a=b/cards " = ("cards", "run/a=b/cards")
  /\ contains "=" "run/kdm_db/cards/" = false
  /\ source_path "run/kdm_db/cards/" = "run/kdm_db/cards/"
  /\ source_key "run/kdm_db/cards/" = "cards"
  /\ parse_source Scenario.padded_source = ("k", "p").
Proof.
  destruct (source_forms " cards " " run/a=b/cards " "run/kdm_db/cards/")
    as (Hcut & Hbare & _).
  destruct (source_forms (Scenario.nbsp ++ "k" ++ Scenario.nbsp)
                         (Scenario.nbsp ++ "p" ++ Scenario.nbsp) "")
    as (Hpadded & _).
  split; [reflexivity|]. split; [exact (Hcut eq_refl)|].
  split; [reflexivity|].
  destruct (Hbare eq_refl) as (Hpath & Hkey & _).
  split; [exact Hpath|]. split; [rewrite Hkey; reflexivity|].
  exact (Hpadded eq_refl).
Defined.

(** ** When the run succeeds *)

Module SuccessFacts.
Import DictFacts.



Lemma makedirs_makes h fs d :
  tree fs d <> Some File -> mkdir_fails h d = false ->
  exists fs1, makedirs h fs d = inr fs1 /\ isdir fs1 d = true.
Proof.
  intros Hfile Hok. unfold makedirs, isdir.
  destruct (tree fs d) as [[|children]|] eqn:Ht.
  - contradiction.
  - exists fs. rewrite Ht. split; reflexivity.
  - rewrite Hok. eexists. split; [reflexivity|]. cbn.
    rewrite String.eqb_refl. reflexivity.
Qed.
End SuccessFacts.

(** X18. When the parent of the destination is not a file, none of the
    system calls of [write_output] fails and the document is UTF-8 (no key
    comes from a file name that is not), [write_output] gets to its [print]:
    the parent is a directory by then, also when it did not exist before,
    the destination holds the document and the temporary file is gone. *)
Theorem write_succeeds_without_faults (h : host) (fs : filesystem)
        (out : string) (files_map : dict file_entry) :
  tree fs (parent_of out) <> Some File ->
  mkdir_fails h (parent_of out) = false ->
  open_fails h (out ++ ".tmp")%string = false ->
  write_stops h (out ++ ".tmp")%string = None ->
  valid_utf8 (document (now_utc_isoformat h) files_map) = true ->
  replace_fails h (out ++ ".tmp")%string out = false ->
  exists fs',
    write_output h fs out files_map
    = (inr (wrote_line out (length files_map)), fs')
    /\ isdir fs' (parent_of out) = true
    /\ content fs' out
       = inr (bytes_of (document (now_utc_isoformat h) files_map))
    /\ content fs' (out ++ ".tmp")%string = inl no_such_file.
Proof.
  intros Hfile Hmk Hopen Hwrite Hvalid Hrep.
  destruct (SuccessFacts.makedirs_makes h fs _ Hfile Hmk) as (fs1 & Hfs1 & Hdir).
  unfold write_output. rewrite Hfs1. unfold write_text.
  rewrite Hopen, Hwrite, Hvalid.
  unfold replace. rewrite Hrep. eexists. split; [reflexivity|]. split; [|split].
  - exact Hdir.
  - rewrite WriteFacts.content_set_other by (symmetry; apply WriteFacts.tmp_differs).
    rewrite WriteFacts.content_set_same. apply WriteFacts.content_set_same.
  - apply WriteFacts.content_set_same.
Qed.

Lemma write_succeeds_without_faults_witness :
  tree Example.fs (parent_of "build/out/manifest.json") <> Some File
  /\ isdir Example.fs "build/out" = false
  /\ valid_utf8 (document (now_utc_isoformat Example.calm) Example.manifest)
     = true
  /\ exists fs',
      write_output Example.calm Example.fs "build/out/manifest.json"
                   Example.manifest
      = (inr (wrote_line "build/out/manifest.json" 2), fs')
      /\ isdir fs' (parent_of "build/out/manifest.json") = true
      /\ content fs' "build/out/manifest.json"
         = inr (bytes_of (document (now_utc_isoformat Example.calm)
                                   Example.manifest))
      /\ content fs' "build/out/manifest.json.tmp" = inl no_such_file.
Proof.
  split; [discriminate|]. split; [reflexivity|]. split; [reflexivity|].
  apply (write_succeeds_without_faults
           Example.calm Example.fs "build/out/manifest.json" Example.manifest);
    try reflexivity.
  discriminate.
Defined.

(** A file name that is not UTF-8 ends the run: its key cannot be written to
    the temporary file, and the destination is not made. *)
Example odd_name_stops_the_write :
  result (main Example.calm Scenario.odd_fs (parse_args ["d"] None []))
  = Raised (WriteError "kdm_manifest.json.tmp")
  /\ content (after (main Example.calm Scenario.odd_fs
                          (parse_args ["d"] None []))) "kdm_manifest.json"
     = content Scenario.odd_fs "kdm_manifest.json".
Proof. vm_compute. split; reflexivity. Qed.


